(** * Session-request adapter of the Hedera WalletConnect wallet

    A shallow embedding of [src/lib/wallet/index.ts]: the request parser
    ([validateParam], [parseSessionRequest]), the rejection path
    ([rejectSessionRequest]) and the six JSON-RPC handlers, together with the
    base64 codec of [src/lib/shared] that they rely on.

    Beside them: the chains that [buildAndApproveSession] computes, the
    network that [getHederaWallet] reads off a chain id, the dispatcher
    [executeSessionRequest], and the request builders of the dApp side.

    JavaScript values that arrive over the wire are modelled by [JsValue];
    exceptions by [Outcome]; the asynchronous handlers by a writer/error
    monad [Async] that records every call made to a collaborator (signer,
    console, session transport). *)

From Stdlib Require Import List String Ascii ZArith NArith Bool Lia.
From Stdlib Require Import Strings.Byte.
From Stdlib Require Import Decimal DecimalString.
From Stdlib Require Import Sorting.Permutation.
Import ListNotations.

Local Open Scope list_scope.
Local Open Scope string_scope.

(* ================================================================== *)
(** ** JavaScript values and exceptions *)

#[local] Set Warnings "-register-all".

Module Js.

(** A value as produced by [JSON.parse], plus [undefined].  Numbers are
    restricted to integers: the adapter only looks at [typeof] and at
    truthiness. *)
Inductive JsValue : Type :=
| JsUndefined
| JsNull
| JsBool (b : bool)
| JsNumber (n : Z)
| JsString (s : string)
| JsArray (elements : list JsValue)
| JsObject (fields : list (string * JsValue)).

(** [typeof value] *)
Definition typeof (v : JsValue) : string :=
  match v with
  | JsUndefined => "undefined"
  | JsNull => "object"
  | JsBool _ => "boolean"
  | JsNumber _ => "number"
  | JsString _ => "string"
  | JsArray _ => "object"
  | JsObject _ => "object"
  end.

(** [Array.isArray(value)] *)
Definition isArray (v : JsValue) : bool :=
  match v with
  | JsArray _ => true
  | _ => false
  end.

(** Truthiness, as tested by [if (value)]. *)
Definition truthy (v : JsValue) : bool :=
  match v with
  | JsUndefined => false
  | JsNull => false
  | JsBool b => b
  | JsNumber n => negb (n =? 0)%Z
  | JsString s => negb (s =? "")
  | JsArray _ => true
  | JsObject _ => true
  end.

Fixpoint lookup (key : string) (fields : list (string * JsValue)) : JsValue :=
  match fields with
  | [] => JsUndefined
  | (k, v) :: rest => if k =? key then v else lookup key rest
  end.

(** [value?.key] for the parameter names the adapter reads: only plain
    objects carry them; on every other value, [null] and [undefined]
    included, the optional access yields [undefined]. *)
Definition getOpt (v : JsValue) (key : string) : JsValue :=
  match v with
  | JsObject fields => lookup key fields
  | _ => JsUndefined
  end.

(** The elements visited by [value.forEach] / [value.map]. *)
Definition elementsOf (v : JsValue) : list JsValue :=
  match v with
  | JsArray l => l
  | _ => []
  end.

(** A value already checked to be a string, read at type [string]. *)
Definition asString (v : JsValue) : string :=
  match v with
  | JsString s => s
  | _ => ""
  end.

(** [`${index}`] *)
Definition showIndex (i : nat) : string :=
  NilEmpty.string_of_uint (Nat.to_uint i).

(** What can be thrown. *)
Inductive JsError : Type :=
| HederaError (key : string) (context : option string)
    (* getHederaError(key, context) *)
| SdkError (key : string)
    (* getSdkError(key) *)
| PrecheckStatusError (code : Z)
    (* the ledger's typed precheck error; [code] is [err.status._code] *)
| TypeError (msg : string)
| DecodeError (msg : string)
| Error (msg : string).


Inductive Outcome (A : Type) : Type :=
| Returned (a : A)
| Thrown (e : JsError).
Arguments Returned {A} a.
Arguments Thrown {A} e.

Definition obind {A B} (m : Outcome A) (k : A -> Outcome B) : Outcome B :=
  match m with
  | Returned a => k a
  | Thrown e => Thrown e
  end.

(** [list.map(f)] where [f] may throw: the first exception wins. *)
Fixpoint mapThrowing {A B} (f : A -> Outcome B) (l : list A) : Outcome (list B) :=
  match l with
  | [] => Returned []
  | a :: rest =>
      obind (f a) (fun b =>
      obind (mapThrowing f rest) (fun bs => Returned (b :: bs)))
  end.

(** [list.forEach((x, index) => f(x, index))], counting from [i]. *)
Fixpoint forEachFrom {A} (i : nat) (f : A -> nat -> Outcome unit) (l : list A)
  : Outcome unit :=
  match l with
  | [] => Returned tt
  | a :: rest => obind (f a i) (fun _ => forEachFrom (S i) f rest)
  end.

Definition forEach {A} (f : A -> nat -> Outcome unit) (l : list A) : Outcome unit :=
  forEachFrom 0 f l.

End Js.
Import Js.

(* ================================================================== *)
(** ** Ledger objects, as the adapter sees those of the ledger SDK *)

(** [Uint8Array] *)
Definition bytes : Type := list byte.

Record AccountId : Type := mkAccountId
  { shard : N; realm : N; num : N }.

Record TransactionId : Type := mkTransactionId
  { payer : AccountId; validStart : N }.

(** [sigPair] entries: public-key prefix and signature. *)
Definition SignatureMap : Type := list (bytes * bytes).

(** The getters [transactionId] and [nodeAccountIds] answer [null] when
    nothing was set, hence the options. *)
Record Transaction : Type := mkTransaction
  { transactionId : option TransactionId;
    nodeAccountIds : option (list AccountId);
    bodyBytes : bytes }.

Record Query : Type := mkQuery
  { queryBytes : bytes }.

Record SignerSignature : Type := mkSignerSignature
  { publicKey : bytes; signature : bytes; accountId : AccountId }.

(** The operations of the ledger SDK that the adapter calls. *)
Class Sdk : Type := mkSdk
  { AccountId_fromString : string -> Outcome AccountId;
    AccountId_toString : AccountId -> string;
    TransactionId_toString : TransactionId -> string;
    getTransactionHash : Transaction -> Outcome bytes;
    getSignatures : Transaction -> Outcome SignatureMap }.

(** The codec of [src/lib/shared], as [wallet/index.ts] imports it. *)
Class Codec : Type := mkCodec
  { base64StringToTransaction : string -> Outcome Transaction;
    base64StringToQuery : string -> Outcome Query;
    base64StringToMessage : string -> Outcome (list bytes);
    Uint8ArrayToBase64String : bytes -> string;
    signatureMapToBase64 : SignatureMap -> string }.

(** [getHederaError(key, context)] and [getSdkError(key)] build the value
    that is thrown. *)
Definition getHederaError (key : string) (context : option string) : JsError :=
  HederaError key context.

Definition getSdkError (key : string) : JsError :=
  SdkError key.

(** Modelled from the spec: the enumeration [HederaJsonRpcMethod] of
    [src/lib/shared/methods], absent from the sources; its six wire names
    are those listed under "Wire JSON-RPC method names". *)
Module HederaJsonRpcMethod.
Definition GetNodeAddresses : string := "hedera_getNodeAddresses".
Definition ExecuteTransaction : string := "hedera_executeTransaction".
Definition SignMessage : string := "hedera_signMessage".
Definition SignQueryAndSend : string := "hedera_signQueryAndSend".
Definition SignAndExecuteTransaction : string := "hedera_signAndExecuteTransaction".
Definition SignTransaction : string := "hedera_signTransaction".
Definition values : list string :=
  [GetNodeAddresses; ExecuteTransaction; SignMessage; SignQueryAndSend;
   SignAndExecuteTransaction; SignTransaction].
End HederaJsonRpcMethod.

(* ================================================================== *)
(** ** Session requests and their parsed form *)

(** [Web3WalletTypes.SessionRequest] *)
Record RequestArguments : Type := mkRequestArguments
  { rq_method : string; rq_params : JsValue }.

Record RequestParams : Type := mkRequestParams
  { rp_request : RequestArguments; rp_chainId : string }.

Record SessionRequest : Type := mkSessionRequest
  { ev_id : Z; ev_topic : string; ev_params : RequestParams }.

(** [Transaction | Transaction[] | Query<any> | Uint8Array[]]; [undefined]
    is the [None] of [option Body]. *)
Inductive Body : Type :=
| BodyTransactions (transactions : list Transaction)
| BodyQuery (query : Query)
| BodyMessages (messages : list bytes).

(** The object returned by [parseSessionRequest]. *)
Record Descriptor : Type := mkDescriptor
  { d_method : string;
    d_chainId : string;
    d_id : Z;
    d_topic : string;
    d_body : option Body;
    d_accountId : option AccountId }.

(** The two [let] variables that the [try] block of [parseSessionRequest]
    assigns; an assignment made before an exception is kept. *)
Record Locals : Type := mkLocals
  { body : option Body; signerAccountId : option AccountId }.

Definition Block (A : Type) : Type := Locals -> Outcome A * Locals.

Definition bret {A} (a : A) : Block A := fun l => (Returned a, l).

Definition bbind {A B} (m : Block A) (k : A -> Block B) : Block B :=
  fun l =>
    match m l with
    | (Returned a, l') => k a l'
    | (Thrown e, l') => (Thrown e, l')
    end.

Definition eval {A} (o : Outcome A) : Block A := fun l => (o, l).

Definition throw {A} (e : JsError) : Block A := fun l => (Thrown e, l).

Definition setBody (b : Body) : Block unit :=
  fun l => (Returned tt, {| body := Some b; signerAccountId := signerAccountId l |}).

Definition setSignerAccountId (a : AccountId) : Block unit :=
  fun l => (Returned tt, {| body := body l; signerAccountId := Some a |}).

Declare Scope block_scope.
Delimit Scope block_scope with block.
Notation "x <- m ;; k" := (bbind m (fun x => k))
  (at level 61, m at next level, right associativity) : block_scope.
Notation "m ;; k" := (bbind m (fun _ => k))
  (at level 61, right associativity) : block_scope.

(** [validateParam(name, value, expectedType)] *)
Definition validateParam (name : string) (value : JsValue) (expectedType : string)
  : Outcome unit :=
  if (expectedType =? "array") && isArray value then Returned tt
  else if typeof value =? expectedType then Returned tt
  else Thrown (getHederaError "INVALID_PARAMS"
         (Some ("Invalid paramameter value for " ++ name ++ ", expected "
                ++ expectedType ++ " but got " ++ typeof value))).

Section Parser.
Context {sdk : Sdk} {codec : Codec}.

(** The [forEach] over an array parameter: every element is validated
    under the name [field[index]]. *)
Definition validateElements (field : string) (array : JsValue) : Outcome unit :=
  forEach
    (fun base64StringTransaction index =>
       validateParam (field ++ "[" ++ showIndex index ++ "]")
                     base64StringTransaction "string")
    (elementsOf array).

(** [array.map((s) => base64StringToTransaction(s))] *)
Definition decodeTransactions (array : JsValue) : Outcome (list Transaction) :=
  mapThrowing (fun s => base64StringToTransaction (asString s)) (elementsOf array).

(** The [switch (method)] of [parseSessionRequest]. *)
Definition switchMethod (method : string) (params : JsValue) : Block unit :=
  (if method =? HederaJsonRpcMethod.GetNodeAddresses then
     if truthy params then throw (getHederaError "INVALID_PARAMS" None)
     else bret tt
   else if method =? HederaJsonRpcMethod.ExecuteTransaction then
     let _params := params in
     eval (validateParam "signedTransaction" (getOpt _params "signedTransaction") "array") ;;
     eval (validateElements "signedTransaction" (getOpt _params "signedTransaction")) ;;
     txs <- eval (decodeTransactions (getOpt _params "signedTransaction")) ;;
     setBody (BodyTransactions txs)
   else if method =? HederaJsonRpcMethod.SignMessage then
     let _params := params in
     eval (validateParam "signerAccountId" (getOpt _params "signerAccountId") "string") ;;
     eval (validateParam "message" (getOpt _params "message") "string") ;;
     a <- eval (AccountId_fromString (asString (getOpt _params "signerAccountId"))) ;;
     setSignerAccountId a ;;
     m <- eval (base64StringToMessage (asString (getOpt _params "message"))) ;;
     setBody (BodyMessages m)
   else if method =? HederaJsonRpcMethod.SignQueryAndSend then
     let _params := params in
     eval (validateParam "signerAccountId" (getOpt _params "signerAccountId") "string") ;;
     eval (validateParam "query" (getOpt _params "query") "string") ;;
     a <- eval (AccountId_fromString (asString (getOpt _params "signerAccountId"))) ;;
     setSignerAccountId a ;;
     q <- eval (base64StringToQuery (asString (getOpt _params "query"))) ;;
     setBody (BodyQuery q)
   else if method =? HederaJsonRpcMethod.SignAndExecuteTransaction then
     let _params := params in
     eval (validateParam "signerAccountId" (getOpt _params "signerAccountId") "string") ;;
     eval (validateParam "transaction" (getOpt _params "transaction") "array") ;;
     eval (validateElements "transaction" (getOpt _params "transaction")) ;;
     a <- eval (AccountId_fromString (asString (getOpt _params "signerAccountId"))) ;;
     setSignerAccountId a ;;
     txs <- eval (decodeTransactions (getOpt _params "transaction")) ;;
     setBody (BodyTransactions txs)
   else if method =? HederaJsonRpcMethod.SignTransaction then
     let _params := params in
     eval (validateParam "signerAccountId" (getOpt _params "signerAccountId") "string") ;;
     eval (validateParam "transaction" (getOpt _params "transaction") "array") ;;
     eval (validateElements "transaction" (getOpt _params "transaction")) ;;
     a <- eval (AccountId_fromString (asString (getOpt _params "signerAccountId"))) ;;
     setSignerAccountId a ;;
     txs <- eval (decodeTransactions (getOpt _params "transaction")) ;;
     setBody (BodyTransactions txs)
   else
     throw (getSdkError "INVALID_METHOD"))%block.

(** [parseSessionRequest(event, shouldThrow)] *)
Definition parseSessionRequest (event : SessionRequest) (shouldThrow : bool)
  : Outcome Descriptor :=
  let id := ev_id event in
  let topic := ev_topic event in
  let method := rq_method (rp_request (ev_params event)) in
  let params := rq_params (rp_request (ev_params event)) in
  let chainId := rp_chainId (ev_params event) in
  let '(tried, locals) := switchMethod method params {| body := None; signerAccountId := None |} in
  let descriptor :=
    {| d_method := method; d_chainId := chainId; d_id := id; d_topic := topic;
       d_body := body locals; d_accountId := signerAccountId locals |} in
  match tried with
  | Thrown e => if shouldThrow then Thrown e else Returned descriptor
  | Returned _ => Returned descriptor
  end.

End Parser.

(* ================================================================== *)
(** ** Responses, collaborators and the handler monad *)

(** One record of the result array of [hedera_executeTransaction] and
    [hedera_signAndExecuteTransaction]. *)
Record TransactionResult : Type := mkTransactionResult
  { r_transactionId : string;
    r_nodeId : string;
    r_transactionHash : string;
    r_precheckCode : Z }.

Inductive ResultPayload : Type :=
| NodesResult (nodes : list string)
| TransactionResults (results : list TransactionResult)
| SignMessageResult (signatureMap : string)
| QueryResult (response : string)
| SignTransactionResult (signatureMaps : list string).

Record ErrorPayload : Type := mkErrorPayload
  { code : Z; message : string }.

(** [response: { id, jsonrpc, result }] or [response: { id, jsonrpc, error }] *)
Record JsonRpcResponse : Type := mkJsonRpcResponse
  { jsonrpc : string;
    resp_id : Z;
    payload : ResultPayload + ErrorPayload }.

(** The argument of [respondSessionRequest]. *)
Record RespondParams : Type := mkRespondParams
  { topic : string; response : JsonRpcResponse }.

(** The signer handed to every handler ([HederaWallet] of the SDK).
    [call] stands for [signer.call(transaction)], whose response the
    handlers drop; [executeQuery] for [query.executeWithSigner(signer)]
    followed by [toBytes()].  In the SDK [executeWithSigner] is itself
    [signer.call(query)]: the two fields are the one method [call] at
    its two uses, on a transaction and on a query. *)
Record HederaWallet : Type := mkHederaWallet
  { getNetwork : list (string * AccountId);
    sign : list bytes -> Outcome (list SignerSignature);
    signTransaction : Transaction -> Outcome Transaction;
    call : Transaction -> Outcome unit;
    executeQuery : Query -> Outcome bytes }.

(** The session transport inherited from [Web3Wallet]: what
    [respondSessionRequest] resolves or rejects with. *)
Class Transport : Type := mkTransport
  { deliver : RespondParams -> Outcome unit }.

(** Calls made to the collaborators, in the order they are made. *)
Inductive Effect : Type :=
| Respond (r : RespondParams)
| ConsoleLogError (e : JsError)
| ConsoleLogSignatures (s : list SignerSignature)
| SignerGetNetwork
| SignerSign (messages : list bytes)
| SignerSignTransaction (t : Transaction)
| SignerCall (t : Transaction)
| QueryExecuteWithSigner (q : Query).

(** An asynchronous computation: the calls it made and how it settled. *)
Definition Async (A : Type) : Type := list Effect * Outcome A.

Definition aret {A} (a : A) : Async A := ([], Returned a).

Definition abind {A B} (m : Async A) (k : A -> Async B) : Async B :=
  match m with
  | (t, Returned a) => let '(t', o) := k a in ((t ++ t')%list, o)
  | (t, Thrown e) => (t, Thrown e)
  end.

Definition settle {A} (o : Outcome A) : Async A := ([], o).

Definition perform {A} (f : Effect) (o : Outcome A) : Async A := ([f], o).

(** [try { m } catch (err) { handler(err) }] *)
Definition tryCatch {A} (m : Async A) (handler : JsError -> Async A) : Async A :=
  match m with
  | (t, Returned a) => (t, Returned a)
  | (t, Thrown err) => let '(t', o) := handler err in ((t ++ t')%list, o)
  end.

(** [await Promise.all(promises)].  Every promise runs to its end whatever
    the others do; the array is fulfilled when all are, and rejected
    otherwise.  The promises are linearised in index order and the
    rejection reported is that of the least index. *)
Fixpoint Promise_all {A} (promises : list (Async A)) : Async (list A) :=
  match promises with
  | [] => ([], Returned [])
  | (t, o) :: rest =>
      let '(t', os) := Promise_all rest in
      ((t ++ t')%list,
       match o, os with
       | Returned a, Returned l => Returned (a :: l)
       | Thrown e, _ => Thrown e
       | Returned _, Thrown e => Thrown e
       end)
  end.

Declare Scope async_scope.
Delimit Scope async_scope with async.
Notation "x <- m ;; k" := (abind m (fun x => k))
  (at level 61, m at next level, right associativity) : async_scope.
Notation "m ;; k" := (abind m (fun _ => k))
  (at level 61, right associativity) : async_scope.

(** The effects of kind [Respond] among [t]. *)
Definition responses (t : list Effect) : list RespondParams :=
  flat_map (fun f => match f with Respond r => [r] | _ => [] end) t.

(** The transactions handed to [signer.call] among [t]. *)
Definition submissions (t : list Effect) : list Transaction :=
  flat_map (fun f => match f with SignerCall x => [x] | _ => [] end) t.

(* ================================================================== *)
(** ** The wallet: rejection path and JSON-RPC handlers *)

Section Wallet.
Context {sdk : Sdk} {codec : Codec} {transport : Transport}.

(** [this.respondSessionRequest(params)] *)
Definition respondSessionRequest (params : RespondParams) : Async unit :=
  perform (Respond params) (deliver params).

(** [rejectSessionRequest(event, error)] *)
Definition rejectSessionRequest (event : SessionRequest) (error : ErrorPayload)
  : Async unit :=
  (d <- settle (parseSessionRequest event false) ;;
   let id := d_id d in
   let topic := d_topic d in
   respondSessionRequest
     {| topic := topic;
        response := {| jsonrpc := "2.0"; resp_id := id; payload := inr error |} |})%async.

(** 1. [hedera_getNodeAddresses] *)
Definition hedera_getNodeAddresses (id : Z) (topic : string) (signer : HederaWallet)
  : Async unit :=
  (nodesAccountIds <- perform SignerGetNetwork (Returned (getNetwork signer)) ;;
   let nodes := map (fun entry => AccountId_toString (snd entry)) nodesAccountIds in
   respondSessionRequest
     {| topic := topic;
        response := {| jsonrpc := "2.0"; resp_id := id;
                       payload := inl (NodesResult nodes) |} |})%async.

(** [transaction.transactionId!.toString()] *)
Definition transactionIdString (transaction : Transaction) : Outcome string :=
  match transactionId transaction with
  | Some i => Returned (TransactionId_toString i)
  | None => Thrown (TypeError "Cannot read properties of null (reading 'toString')")
  end.

(** [transaction.nodeAccountIds![0].toString()] *)
Definition firstNodeIdString (transaction : Transaction) : Outcome string :=
  match nodeAccountIds transaction with
  | Some (n :: _) => Returned (AccountId_toString n)
  | Some [] => Thrown (TypeError "Cannot read properties of undefined (reading 'toString')")
  | None => Thrown (TypeError "Cannot read properties of null (reading '0')")
  end.

(** The body shared by the two [resultPromises] callbacks: read the
    identifiers, hash, then submit inside [try]/[catch]. *)
Definition submitTransaction (signer : HederaWallet) (transaction : Transaction)
  : Async TransactionResult :=
  (transactionId <- settle (transactionIdString transaction) ;;
   nodeId <- settle (firstNodeIdString transaction) ;;
   hash <- settle (getTransactionHash transaction) ;;
   let transactionHash := Uint8ArrayToBase64String hash in
   let precheckCode := 0%Z in
   precheckCode <-
     tryCatch
       (perform (SignerCall transaction) (call signer transaction) ;;
        aret precheckCode)
       (fun err =>
          perform (ConsoleLogError err) (Returned tt) ;;
          aret (match err with
                | PrecheckStatusError code => code
                | _ => precheckCode
                end)) ;;
   aret {| r_transactionId := transactionId;
           r_nodeId := nodeId;
           r_transactionHash := transactionHash;
           r_precheckCode := precheckCode |})%async.

(** 2. [hedera_executeTransaction] *)
Definition hedera_executeTransaction (id : Z) (topic : string)
  (body : list Transaction) (signer : HederaWallet) : Async unit :=
  (let resultPromises := map (submitTransaction signer) body in
   result <- Promise_all resultPromises ;;
   respondSessionRequest
     {| topic := topic;
        response := {| jsonrpc := "2.0"; resp_id := id;
                       payload := inl (TransactionResults result) |} |})%async.

(** 3. [hedera_signMessage] *)
Definition hedera_signMessage (id : Z) (topic : string)
  (body : list bytes) (signer : HederaWallet) : Async unit :=
  (signerSignatures <- perform (SignerSign body) (sign signer body) ;;
   perform (ConsoleLogSignatures signerSignatures) (Returned tt) ;;
   first <- settle (match signerSignatures with
                    | s :: _ => Returned s
                    | [] => Thrown (TypeError
                              "Cannot read properties of undefined (reading 'signature')")
                    end) ;;
   let signatureMap := Uint8ArrayToBase64String (signature first) in
   respondSessionRequest
     {| topic := topic;
        response := {| jsonrpc := "2.0"; resp_id := id;
                       payload := inl (SignMessageResult signatureMap) |} |})%async.

(** 4. [hedera_signQueryAndSend] *)
Definition hedera_signQueryAndSend (id : Z) (topic : string)
  (body : Query) (signer : HederaWallet) : Async unit :=
  (queryResult <- perform (QueryExecuteWithSigner body) (executeQuery signer body) ;;
   let queryResponse := Uint8ArrayToBase64String queryResult in
   respondSessionRequest
     {| topic := topic;
        response := {| jsonrpc := "2.0"; resp_id := id;
                       payload := inl (QueryResult queryResponse) |} |})%async.

(** [signer.signTransaction(transaction)] *)
Definition signOne (signer : HederaWallet) (transaction : Transaction)
  : Async Transaction :=
  perform (SignerSignTransaction transaction) (signTransaction signer transaction).

(** 5. [hedera_signAndExecuteTransaction] *)
Definition hedera_signAndExecuteTransaction (id : Z) (topic : string)
  (body : list Transaction) (signer : HederaWallet) : Async unit :=
  (let signedTransactionsPromises := map (signOne signer) body in
   signedTransactions <- Promise_all signedTransactionsPromises ;;
   let resultPromises := map (submitTransaction signer) signedTransactions in
   result <- Promise_all resultPromises ;;
   respondSessionRequest
     {| topic := topic;
        response := {| jsonrpc := "2.0"; resp_id := id;
                       payload := inl (TransactionResults result) |} |})%async.

(** 6. [hedera_signTransaction] *)
Definition hedera_signTransaction (id : Z) (topic : string)
  (body : list Transaction) (signer : HederaWallet) : Async unit :=
  (let transactionsPromises := map (signOne signer) body in
   transactions <- Promise_all transactionsPromises ;;
   result <- settle (mapThrowing
                       (fun transaction =>
                          obind (getSignatures transaction) (fun signatureMap =>
                          let base64SignatureMap := signatureMapToBase64 signatureMap in
                          Returned base64SignatureMap))
                       transactions) ;;
   respondSessionRequest
     {| topic := topic;
        response := {| jsonrpc := "2.0"; resp_id := id;
                       payload := inl (SignTransactionResult result) |} |})%async.

End Wallet.

(* ================================================================== *)
(** ** The codec of [src/lib/shared] *)

(** Modelled from the spec: the base64 layer of the absent
    [src/lib/shared/utils], after RFC 4648 with padding. *)
Module Base64.

Local Open Scope N_scope.

Definition alphabet : list ascii :=
  list_ascii_of_string
    "ABCDEFGHIJKLMNOPQRSTUVWXYZabcdefghijklmnopqrstuvwxyz0123456789+/".

Definition pad : ascii := "="%char.

(** The character of a six-bit value. *)
Definition digit (n : N) : ascii := nth (N.to_nat n) alphabet "A"%char.

Fixpoint indexFrom (i : N) (c : ascii) (l : list ascii) : option N :=
  match l with
  | [] => None
  | x :: rest => if Ascii.eqb x c then Some i else indexFrom (N.succ i) c rest
  end.

(** The six-bit value of a character of the alphabet. *)
Definition value (c : ascii) : option N := indexFrom 0 c alphabet.

Definition byteOf (n : N) : byte :=
  match Byte.of_N n with
  | Some b => b
  | None => x00
  end.

(** The four six-bit groups of a 24-bit quantum. *)
Definition sextets (n : N) : N * N * N * N :=
  (n / 262144, (n / 4096) mod 64, (n / 64) mod 64, n mod 64).

Definition quantum (a b c : byte) : N :=
  Byte.to_N a * 65536 + Byte.to_N b * 256 + Byte.to_N c.

Definition encode3 (a b c : byte) : list ascii :=
  let '(s1, s2, s3, s4) := sextets (quantum a b c) in
  [digit s1; digit s2; digit s3; digit s4].

Definition encode2 (a b : byte) : list ascii :=
  let '(s1, s2, s3, _) := sextets (quantum a b x00) in
  [digit s1; digit s2; digit s3; pad].

Definition encode1 (a : byte) : list ascii :=
  let '(s1, s2, _, _) := sextets (quantum a x00 x00) in
  [digit s1; digit s2; pad; pad].

Fixpoint encodeChars (bs : list byte) : list ascii :=
  match bs with
  | [] => []
  | [a] => encode1 a
  | [a; b] => encode2 a b
  | a :: b :: c :: rest => (encode3 a b c ++ encodeChars rest)%list
  end.

Definition assemble (v1 v2 v3 v4 : N) : N :=
  v1 * 262144 + v2 * 4096 + v3 * 64 + v4.

Definition decode4 (c1 c2 c3 c4 : ascii) : option (list byte) :=
  match value c1, value c2, value c3, value c4 with
  | Some v1, Some v2, Some v3, Some v4 =>
      let n := assemble v1 v2 v3 v4 in
      Some [byteOf (n / 65536); byteOf ((n / 256) mod 256); byteOf (n mod 256)]
  | _, _, _, _ => None
  end.

(** A final group with one pad character: two bytes, and the two unused
    bits must be zero. *)
Definition decode3 (c1 c2 c3 : ascii) : option (list byte) :=
  match value c1, value c2, value c3 with
  | Some v1, Some v2, Some v3 =>
      if v3 mod 4 =? 0 then
        let n := assemble v1 v2 v3 0 in
        Some [byteOf (n / 65536); byteOf ((n / 256) mod 256)]
      else None
  | _, _, _ => None
  end.

(** A final group with two pad characters: one byte, and the four unused
    bits must be zero. *)
Definition decode2 (c1 c2 : ascii) : option (list byte) :=
  match value c1, value c2 with
  | Some v1, Some v2 =>
      if v2 mod 16 =? 0 then
        let n := assemble v1 v2 0 0 in
        Some [byteOf (n / 65536)]
      else None
  | _, _ => None
  end.

Definition isNil {A} (l : list A) : bool :=
  match l with
  | [] => true
  | _ => false
  end.

Fixpoint decodeChars (cs : list ascii) : option (list byte) :=
  match cs with
  | [] => Some []
  | c1 :: c2 :: c3 :: c4 :: rest =>
      if isNil rest && Ascii.eqb c4 pad then
        if Ascii.eqb c3 pad then decode2 c1 c2 else decode3 c1 c2 c3
      else
        match decode4 c1 c2 c3 c4, decodeChars rest with
        | Some group, Some others => Some (group ++ others)%list
        | _, _ => None
        end
  | _ => None
  end.

(** Modelled from the spec: [encodeBytes], the total base64 encoder of
    the absent [src/lib/shared/utils] ([Uint8ArrayToBase64String]). *)
Definition encodeBytes (bs : bytes) : string :=
  string_of_list_ascii (encodeChars bs).

(** Modelled from the spec: [decodeMessage], the base64 decoder of the
    absent [src/lib/shared/utils]; it fails on invalid base64, that is on
    every string that is not the encoding of some byte sequence. *)
Definition decodeMessage (s : string) : option bytes :=
  decodeChars (list_ascii_of_string s).

End Base64.

(** The wire format of the ledger SDK ([toBytes] / [fromBytes]). *)
Class WireFormat : Type := mkWireFormat
  { Transaction_toBytes : Transaction -> bytes;
    Transaction_fromBytes : bytes -> Outcome Transaction;
    Query_toBytes : Query -> bytes;
    Query_fromBytes : bytes -> Outcome Query;
    SignatureMap_toBytes : SignatureMap -> bytes }.

Section SharedCodec.
Context {wire : WireFormat}.

(** Modelled from the spec: the decoders and encoders of the absent
    [src/lib/shared/utils], each the base64 layer composed with the wire
    format of the SDK; decoding fails with [DecodeError] when the text is
    not valid base64 or the bytes do not parse. *)
Definition decodeBase64 (s : string) : Outcome bytes :=
  match Base64.decodeMessage s with
  | Some bs => Returned bs
  | None => Thrown (DecodeError "invalid base64")
  end.

(** Modelled from the spec: [decodeTransaction] of the absent
    [src/lib/shared/utils] ([base64StringToTransaction]). *)
Definition decodeTransaction (s : string) : Outcome Transaction :=
  obind (decodeBase64 s) Transaction_fromBytes.

(** Modelled from the spec: [decodeQuery] of the absent
    [src/lib/shared/utils] ([base64StringToQuery]). *)
Definition decodeQuery (s : string) : Outcome Query :=
  obind (decodeBase64 s) Query_fromBytes.

(** Modelled from the spec: the encoder of transactions of the absent
    [src/lib/shared/utils]. *)
Definition transactionToBase64String (t : Transaction) : string :=
  Base64.encodeBytes (Transaction_toBytes t).

(** Modelled from the spec: the encoder of queries of the absent
    [src/lib/shared/utils]. *)
Definition queryToBase64String (q : Query) : string :=
  Base64.encodeBytes (Query_toBytes q).

(** Modelled from the spec: the codec of the absent [src/lib/shared/utils]
    as a whole, in the shape [wallet/index.ts] imports it. *)
Definition sharedCodec : Codec :=
  {| base64StringToTransaction := decodeTransaction;
     base64StringToQuery := decodeQuery;
     base64StringToMessage := fun s => obind (decodeBase64 s) (fun bs => Returned [bs]);
     Uint8ArrayToBase64String := Base64.encodeBytes;
     signatureMapToBase64 := fun m => Base64.encodeBytes (SignatureMap_toBytes m) |}.

End SharedCodec.

(* ================================================================== *)
(** ** Test doubles for the collaborators *)

Module Fixtures.

Definition showN (n : N) : string := NilEmpty.string_of_uint (N.to_uint n).

Definition readN (s : string) : option N :=
  match s with
  | EmptyString => None
  | _ => option_map N.of_uint (NilEmpty.uint_of_string s)
  end.

(** [s.split(".")] *)
Fixpoint splitDots (current : string) (s : string) : list string :=
  match s with
  | EmptyString => [current]
  | String c rest =>
      if Ascii.eqb c "."%char then current :: splitDots EmptyString rest
      else splitDots (current ++ String c EmptyString) rest
  end.

Definition accountIdFromString (s : string) : Outcome AccountId :=
  match map readN (splitDots EmptyString s) with
  | [Some a; Some b; Some c] => Returned (mkAccountId a b c)
  | _ => Thrown (Error "invalid format for entity ID")
  end.

Definition accountIdToString (a : AccountId) : string :=
  showN (shard a) ++ "." ++ showN (realm a) ++ "." ++ showN (num a).

#[export] Instance sdk : Sdk :=
  {| AccountId_fromString := accountIdFromString;
     AccountId_toString := accountIdToString;
     TransactionId_toString :=
       fun i => accountIdToString (payer i) ++ "@" ++ showN (validStart i);
     getTransactionHash := fun t => Returned (bodyBytes t);
     getSignatures := fun t => Returned [(bodyBytes t, bodyBytes t)] |}.

(** A wire format that keeps the body bytes only. *)
#[export] Instance wire : WireFormat :=
  {| Transaction_toBytes := bodyBytes;
     Transaction_fromBytes :=
       fun bs =>
         match bs with
         | [] => Thrown (DecodeError "empty transaction")
         | _ => Returned (mkTransaction None None bs)
         end;
     Query_toBytes := queryBytes;
     Query_fromBytes :=
       fun bs =>
         match bs with
         | [] => Thrown (DecodeError "query.query was not set in the protobuf")
         | _ => Returned (mkQuery bs)
         end;
     SignatureMap_toBytes := fun m => flat_map (fun p => (fst p ++ snd p)%list) m |}.

#[export] Instance codec : Codec := sharedCodec.

(** A transport that delivers every response. *)
#[export] Instance transport : Transport :=
  {| deliver := fun _ => Returned tt |}.

Definition operator : AccountId := mkAccountId 0 0 12345.
Definition node3 : AccountId := mkAccountId 0 0 3.

(** A transaction prepared as the tests do: node and transaction id set. *)
Definition prepared : Transaction :=
  mkTransaction (Some (mkTransactionId operator 1700000000)) (Some [node3])
                [x01; x02; x03].

(** The same without a transaction id. *)
Definition withoutTransactionId : Transaction :=
  mkTransaction None (Some [node3]) [x01; x02; x03].

(** A second prepared transaction, told apart by its bytes. *)
Definition prepared' : Transaction :=
  mkTransaction (Some (mkTransactionId operator 1700000001)) (Some [node3])
                [x0a; x0b].

Definition keyPair : SignerSignature :=
  mkSignerSignature [xaa] [x68; x65; x6c; x6c; x6f] operator.

Definition keyPair' : SignerSignature :=
  mkSignerSignature [xbb] [xff] operator.

(** A signer for which everything succeeds; it answers two signatures. *)
Definition signer : HederaWallet :=
  {| getNetwork := [("0.testnet.hedera.com:50211", node3)];
     sign := fun _ => Returned [keyPair; keyPair'];
     signTransaction := fun t => Returned t;
     call := fun _ => Returned tt;
     executeQuery := fun q => Returned (queryBytes q) |}.



Definition event (method : string) (params : JsValue) : SessionRequest :=
  {| ev_id := 1717;
     ev_topic := "topic-abc";
     ev_params := {| rp_request := {| rq_method := method; rq_params := params |};
                     rp_chainId := "hedera:testnet" |} |}.

End Fixtures.

(* ================================================================== *)
(** ** The vocabulary of the specification *)

(** The Request Schema Registry, in the words of the specification: per
    operation kind, the ordered list of declared fields and their
    expected shape.  The code has no such table; the theorems below
    relate it to the [switch] of [parseSessionRequest]. *)
Inductive Shape : Type :=
| ShapeString
| ShapeArrayOfString.

Definition schemaFor (method : string) : option (list (string * Shape)) :=
  if method =? "hedera_getNodeAddresses" then Some []
  else if method =? "hedera_executeTransaction" then
    Some [("signedTransaction", ShapeArrayOfString)]
  else if method =? "hedera_signMessage" then
    Some [("signerAccountId", ShapeString); ("message", ShapeString)]
  else if method =? "hedera_signQueryAndSend" then
    Some [("signerAccountId", ShapeString); ("query", ShapeString)]
  else if method =? "hedera_signAndExecuteTransaction" then
    Some [("signerAccountId", ShapeString); ("transaction", ShapeArrayOfString)]
  else if method =? "hedera_signTransaction" then
    Some [("signerAccountId", ShapeString); ("transaction", ShapeArrayOfString)]
  else None.

Definition isString (v : JsValue) : bool :=
  match v with
  | JsString _ => true
  | _ => false
  end.

(** A value has the shape declared for its field. *)
Definition wellShaped (shape : Shape) (v : JsValue) : bool :=
  match shape with
  | ShapeString => isString v
  | ShapeArrayOfString => isArray v && forallb isString (elementsOf v)
  end.

(** What an [InvalidParamsError] reports: the offending field (with the
    element index for an array element), the expected shape and the
    actual type. *)
Record Violation : Type := mkViolation
  { offender : string; expected : string; actual : string }.

Fixpoint firstBadElement (field : string) (i : nat) (l : list JsValue)
  : option Violation :=
  match l with
  | [] => None
  | v :: rest =>
      if isString v then firstBadElement field (S i) rest
      else Some {| offender := field ++ "[" ++ showIndex i ++ "]";
                   expected := "string";
                   actual := typeof v |}
  end.

Definition fieldViolation (params : JsValue) (field : string * Shape)
  : option Violation :=
  let v := getOpt params (fst field) in
  match snd field with
  | ShapeString =>
      if isString v then None
      else Some {| offender := fst field; expected := "string"; actual := typeof v |}
  | ShapeArrayOfString =>
      if isArray v then firstBadElement (fst field) 0 (elementsOf v)
      else Some {| offender := fst field; expected := "array"; actual := typeof v |}
  end.

(** The first violation met when the declared fields are checked in
    order. *)
Fixpoint firstViolation (params : JsValue) (schema : list (string * Shape))
  : option Violation :=
  match schema with
  | [] => None
  | field :: rest =>
      match fieldViolation params field with
      | Some v => Some v
      | None => firstViolation params rest
      end
  end.

Definition InvalidParamsError (v : Violation) : JsError :=
  HederaError "INVALID_PARAMS"
    (Some ("Invalid paramameter value for " ++ offender v ++ ", expected "
           ++ expected v ++ " but got " ++ actual v)).

Definition InvalidMethodError : JsError := SdkError "INVALID_METHOD".

(** The schema declares the signer-override field. *)
Definition declaresSigner (schema : list (string * Shape)) : bool :=
  existsb (fun field => fst field =? "signerAccountId") schema.

Definition isNone {A} (o : option A) : bool :=
  match o with
  | None => true
  | Some _ => false
  end.

(** The request names a signer and passes validation. *)
Definition signerValidated (method : string) (params : JsValue) : bool :=
  match schemaFor method with
  | Some schema => declaresSigner schema && isNone (firstViolation params schema)
  | None => false
  end.

(** The unstated precondition of the two submitting handlers. *)
Definition identified (t : Transaction) : bool :=
  match transactionId t, nodeAccountIds t with
  | Some _, Some (_ :: _) => true
  | _, _ => false
  end.

(** The status code a submission ends with in the result record. *)
Definition precheckCodeOf (submission : Outcome unit) : Z :=
  match submission with
  | Returned _ => 0
  | Thrown (PrecheckStatusError c) => c
  | Thrown _ => 0
  end.

(** The error-shaped response of the rejection path. *)
Definition errorResponse (event : SessionRequest) (error : ErrorPayload) : RespondParams :=
  {| topic := ev_topic event;
     response := {| jsonrpc := "2.0"; resp_id := ev_id event; payload := inr error |} |}.

Definition resultResponse (id : Z) (topic : string) (result : ResultPayload) : RespondParams :=
  {| topic := topic;
     response := {| jsonrpc := "2.0"; resp_id := id; payload := inl result |} |}.

(** The descriptor that carries routing information only. *)
Definition routingOnly (event : SessionRequest) : Descriptor :=
  {| d_method := rq_method (rp_request (ev_params event));
     d_chainId := rp_chainId (ev_params event);
     d_id := ev_id event;
     d_topic := ev_topic event;
     d_body := None;
     d_accountId := None |}.

Section HandlerVocabulary.
Context {sdk : Sdk} {codec : Codec}.

(** A result record agrees with the transaction it was made from. *)
Definition recordFor (signer : HederaWallet) (t : Transaction) (r : TransactionResult)
  : Prop :=
  transactionIdString t = Returned (r_transactionId r) /\
  firstNodeIdString t = Returned (r_nodeId r) /\
  (exists h, getTransactionHash t = Returned h /\
             r_transactionHash r = Uint8ArrayToBase64String h) /\
  r_precheckCode r = precheckCodeOf (call signer t).

(** What [console.log(err)] adds after a submission. *)
Definition logged (submission : Outcome unit) : list Effect :=
  match submission with
  | Returned _ => []
  | Thrown err => [ConsoleLogError err]
  end.

(** A transaction on which the synchronous part of a submission cannot
    fail. *)
Definition ready (t : Transaction) : Prop :=
  identified t = true /\ exists h, getTransactionHash t = Returned h.

(** The signer returns the transaction it was given, signed: identifiers
    are what they were ([signWith] of the SDK answers [this]). *)
Definition signsInPlace (signer : HederaWallet) : Prop :=
  forall t s,
    signTransaction signer t = Returned s ->
    transactionId s = transactionId t /\ nodeAccountIds s = nodeAccountIds t.

Definition submitEffects (signer : HederaWallet) (l : list Transaction) : list Effect :=
  flat_map (fun t => SignerCall t :: logged (call signer t)) l.

End HandlerVocabulary.

(* ================================================================== *)
(** ** Session proposals and signer construction *)

(** [s.split(sep)], for a separator of one character. *)
Fixpoint splitFrom (sep : ascii) (current : string) (s : string) : list string :=
  match s with
  | EmptyString => [current]
  | String c rest =>
      if Ascii.eqb c sep then current :: splitFrom sep EmptyString rest
      else splitFrom sep (current ++ String c EmptyString) rest
  end.

Definition splitOn (sep : ascii) (s : string) : list string :=
  splitFrom sep EmptyString s.

(** [parts.join(sep)] *)
Fixpoint joinWith (sep : string) (parts : list string) : string :=
  match parts with
  | [] => EmptyString
  | p :: rest =>
      match rest with
      | [] => p
      | _ :: _ => p ++ sep ++ joinWith sep rest
      end
  end.

(** [a.indexOf(x)]: the least index that holds [x], or [-1]. *)
Fixpoint indexOfFrom (i : nat) (x : string) (a : list string) : Z :=
  match a with
  | [] => (-1)%Z
  | y :: rest => if y =? x then Z.of_nat i else indexOfFrom (S i) x rest
  end.

Definition indexOf (x : string) (a : list string) : Z := indexOfFrom 0 x a.

(** [a.filter((x, i, a) => keep(x, i, a))] *)
Fixpoint filterFrom {A} (i : nat) (keep : A -> nat -> bool) (l : list A) : list A :=
  match l with
  | [] => []
  | x :: rest =>
      if keep x i then x :: filterFrom (S i) keep rest
      else filterFrom (S i) keep rest
  end.

Definition filterIndexed {A} (keep : A -> nat -> list A -> bool) (a : list A) : list A :=
  filterFrom 0 (fun x i => keep x i a) a.

(** [account.split(':').slice(0, 2).join(':')] *)
Definition chainOf (account : string) : string :=
  joinWith ":" (firstn 2 (splitOn ":" account)).

(** The [chains] that [buildAndApproveSession] computes from the
    accounts: the chain of every account, each kept where it comes
    first. *)
Definition uniqueChains (accounts : list string) : list string :=
  filterIndexed (fun x i a => (indexOf x a =? Z.of_nat i)%Z) (map chainOf accounts).

(** The entry of [supportedNamespaces] that [buildAndApproveSession]
    hands to [buildApprovedNamespaces]. *)
Record SupportedNamespace : Type := mkSupportedNamespace
  { ns_chains : list string;
    ns_methods : list string;
    ns_events : list string;
    ns_accounts : list string }.

Definition supportedNamespaces (methods sessionEvents accounts : list string)
  : list (string * SupportedNamespace) :=
  [("hedera",
    {| ns_chains := uniqueChains accounts;
       ns_methods := methods;
       ns_events := sessionEvents;
       ns_accounts := accounts |})].

(** [chainId.split(':')[1]], the network name that [getHederaWallet]
    hands to [Client.forName]; [None] is [undefined]. *)
Definition networkOf (chainId : string) : option string :=
  nth_error (splitOn ":" chainId) 1.

(** The text holds the character. *)
Fixpoint holds (sep : ascii) (s : string) : bool :=
  match s with
  | EmptyString => false
  | String c rest => Ascii.eqb c sep || holds sep rest
  end.

(** A list without its repetitions, every element kept where it comes
    first. *)
Fixpoint keepFirst (l : list string) : list string :=
  match l with
  | [] => []
  | x :: rest => x :: filter (fun y => negb (y =? x)) (keepFirst rest)
  end.

(* ================================================================== *)
(** ** The dispatcher *)

(** What [this[method](id, topic, body, signer)] does when [method] names
    another member of the wallet, or when the body has not the shape the
    handler reads: both lie outside what the parser lets through, and are
    left open. *)
Class OtherMembers : Type := mkOtherMembers
  { outside : string -> Z -> string -> option Body -> HederaWallet -> Async unit }.

Section Dispatcher.
Context {sdk : Sdk} {codec : Codec} {transport : Transport} {others : OtherMembers}.

(** [this[method](id, topic, body, hederaWallet)] *)
Definition dispatch (method : string) (id : Z) (topic : string) (body : option Body)
  (hederaWallet : HederaWallet) : Async unit :=
  if method =? HederaJsonRpcMethod.GetNodeAddresses then
    hedera_getNodeAddresses id topic hederaWallet
  else if method =? HederaJsonRpcMethod.ExecuteTransaction then
    match body with
    | Some (BodyTransactions transactions) =>
        hedera_executeTransaction id topic transactions hederaWallet
    | _ => outside method id topic body hederaWallet
    end
  else if method =? HederaJsonRpcMethod.SignMessage then
    match body with
    | Some (BodyMessages messages) => hedera_signMessage id topic messages hederaWallet
    | _ => outside method id topic body hederaWallet
    end
  else if method =? HederaJsonRpcMethod.SignQueryAndSend then
    match body with
    | Some (BodyQuery query) => hedera_signQueryAndSend id topic query hederaWallet
    | _ => outside method id topic body hederaWallet
    end
  else if method =? HederaJsonRpcMethod.SignAndExecuteTransaction then
    match body with
    | Some (BodyTransactions transactions) =>
        hedera_signAndExecuteTransaction id topic transactions hederaWallet
    | _ => outside method id topic body hederaWallet
    end
  else if method =? HederaJsonRpcMethod.SignTransaction then
    match body with
    | Some (BodyTransactions transactions) =>
        hedera_signTransaction id topic transactions hederaWallet
    | _ => outside method id topic body hederaWallet
    end
  else outside method id topic body hederaWallet.

(** [executeSessionRequest(event, hederaWallet)] *)
Definition executeSessionRequest (event : SessionRequest) (hederaWallet : HederaWallet)
  : Async unit :=
  (d <- settle (parseSessionRequest event true) ;;
   dispatch (d_method d) (d_id d) (d_topic d) (d_body d) hederaWallet)%async.

(** A computation that throws without having answered, or answers once,
    to [id] on [topic], and settles as the transport does. *)
Definition answersOnce (id : Z) (topic : string) (m : Async unit) : Prop :=
  (responses (fst m) = [] /\ exists e, snd m = Thrown e) \/
  (exists result,
     responses (fst m) = [resultResponse id topic result] /\
     snd m = deliver (resultResponse id topic result)).

(** The transaction gets as far as [signer.call]. *)
Definition submittable (t : Transaction) : bool :=
  identified t &&
  match getTransactionHash t with
  | Returned _ => true
  | Thrown _ => false
  end.

End Dispatcher.

(** The transactions handed to [signer.signTransaction] among [t]. *)
Definition signings (t : list Effect) : list Transaction :=
  flat_map (fun f => match f with SignerSignTransaction x => [x] | _ => [] end) t.

(** The queries handed to the signer among [t]:
    [query.executeWithSigner(signer)] is [signer.call(query)]. *)
Definition queryCalls (t : list Effect) : list Query :=
  flat_map (fun f => match f with QueryExecuteWithSigner q => [q] | _ => [] end) t.

(** What a successful strict parse leaves in the descriptor: the body and
    the account that the [switch] assigns for the method. *)
Section Expected.
Context {sdk : Sdk} {codec : Codec}.

Definition expectedBody (method : string) (params : JsValue) : Outcome (option Body) :=
  if method =? "hedera_getNodeAddresses" then Returned None
  else if method =? "hedera_executeTransaction" then
    obind (decodeTransactions (getOpt params "signedTransaction"))
          (fun l => Returned (Some (BodyTransactions l)))
  else if method =? "hedera_signMessage" then
    obind (base64StringToMessage (asString (getOpt params "message")))
          (fun m => Returned (Some (BodyMessages m)))
  else if method =? "hedera_signQueryAndSend" then
    obind (base64StringToQuery (asString (getOpt params "query")))
          (fun q => Returned (Some (BodyQuery q)))
  else if (method =? "hedera_signAndExecuteTransaction")
          || (method =? "hedera_signTransaction") then
    obind (decodeTransactions (getOpt params "transaction"))
          (fun l => Returned (Some (BodyTransactions l)))
  else Returned None.

Definition expectedAccount (schema : list (string * Shape)) (params : JsValue)
  : Outcome (option AccountId) :=
  if declaresSigner schema then
    obind (AccountId_fromString (asString (getOpt params "signerAccountId")))
          (fun a => Returned (Some a))
  else Returned None.

(** The parser as the schema registry would drive it: look the method
    up, refuse parameters where none are declared, report the first
    violation of the schema, then parse the signer account, then decode
    the payload. *)
Definition schemaDrivenParse (event : SessionRequest) : Outcome Descriptor :=
  let method := rq_method (rp_request (ev_params event)) in
  let params := rq_params (rp_request (ev_params event)) in
  match schemaFor method with
  | None => Thrown InvalidMethodError
  | Some [] =>
      if truthy params then Thrown (HederaError "INVALID_PARAMS" None)
      else Returned (routingOnly event)
  | Some schema =>
      match firstViolation params schema with
      | Some viol => Thrown (InvalidParamsError viol)
      | None =>
          obind (expectedAccount schema params) (fun account =>
          obind (expectedBody method params) (fun body =>
          Returned {| d_method := method;
                      d_chainId := rp_chainId (ev_params event);
                      d_id := ev_id event;
                      d_topic := ev_topic event;
                      d_body := body;
                      d_accountId := account |}))
      end
  end.

(** The body has the shape that the handler of the method reads. *)
Definition bodyFits (method : string) (body : option Body) : bool :=
  match body with
  | None => method =? "hedera_getNodeAddresses"
  | Some (BodyTransactions _) =>
      (method =? "hedera_executeTransaction")
      || (method =? "hedera_signAndExecuteTransaction")
      || (method =? "hedera_signTransaction")
  | Some (BodyMessages _) => method =? "hedera_signMessage"
  | Some (BodyQuery _) => method =? "hedera_signQueryAndSend"
  end.

End Expected.


(* ================================================================== *)
(** ** The request builders of the dApp side *)

(** [Uint8Array | string] *)
Inductive Message : Type :=
| MessageBytes (b : bytes)
| MessageText (s : string).

(** The two encoders the builders call: [transactionToBase64String] of
    [src/lib/shared] and [Buffer.from(message).toString('base64')]. *)
Class DappEncoders : Type := mkDappEncoders
  { transactionToBase64 : Transaction -> string;
    messageToBase64 : Message -> string }.

(** [EngineTypes.RequestParams] as the builders fill it. *)
Record EngineRequest : Type := mkEngineRequest
  { er_chainId : string;
    er_topic : string;
    er_expiry : option Z;
    er_request : RequestArguments }.

(** [HederaSessionRequest] *)
Record HederaSessionRequest : Type := mkHederaSessionRequest
  { hs_chainId : string; hs_topic : string; hs_expiry : option Z }.

Section Builders.
Context {encoders : DappEncoders}.

(** [buildSignMessageParams(signerAccountId, messages)] *)
Definition buildSignMessageParams (signerAccountId : string) (messages : list Message)
  : JsValue :=
  JsObject
    [("signerAccountId", JsString signerAccountId);
     ("messages", JsArray (map (fun message => JsString (messageToBase64 message)) messages))].

(** [_buildTransactionParams(signerAccountId, transaction)] *)
Definition _buildTransactionParams (signerAccountId : string) (transaction : Transaction)
  : JsValue :=
  JsObject
    [("signerAccountId", JsString signerAccountId);
     ("transaction", JsObject [("bytes", JsString (transactionToBase64 transaction))])].

Definition buildSignAndExecuteTransactionParams (signerAccountId : string)
  (transaction : Transaction) : JsValue :=
  _buildTransactionParams signerAccountId transaction.

Definition buildSignAndReturnTransactionParams (signerAccountId : string)
  (transaction : Transaction) : JsValue :=
  _buildTransactionParams signerAccountId transaction.

Definition buildSignAndExecuteTransactionRequest (self : HederaSessionRequest)
  (signerAccountId : string) (transaction : Transaction) : EngineRequest :=
  {| er_chainId := hs_chainId self;
     er_topic := hs_topic self;
     er_expiry := hs_expiry self;
     er_request :=
       {| rq_method := HederaJsonRpcMethod.SignAndExecuteTransaction;
          rq_params := buildSignAndExecuteTransactionParams signerAccountId transaction |} |}.

Definition buildSignAndReturnTransactionRequest (self : HederaSessionRequest)
  (signerAccountId : string) (transaction : Transaction) : EngineRequest :=
  {| er_chainId := hs_chainId self;
     er_topic := hs_topic self;
     er_expiry := hs_expiry self;
     er_request :=
       {| rq_method := HederaJsonRpcMethod.SignTransaction;
          rq_params := buildSignAndReturnTransactionParams signerAccountId transaction |} |}.

Definition buildSignMessageRequest (self : HederaSessionRequest)
  (signerAccountId : string) (messages : list Message) : EngineRequest :=
  {| er_chainId := hs_chainId self;
     er_topic := hs_topic self;
     er_expiry := hs_expiry self;
     er_request :=
       {| rq_method := HederaJsonRpcMethod.SignMessage;
          rq_params := buildSignMessageParams signerAccountId messages |} |}.

End Builders.

(** Test doubles for the dispatcher and the builders. *)
Module Doubles.

(** Another member of the wallet: it throws. *)
Definition others : OtherMembers :=
  {| outside := fun _ _ _ _ _ => ([], Thrown (TypeError "this[method] is not a function")) |}.

(** Another one, that answers by itself. *)
Definition others' : OtherMembers :=
  {| outside := fun _ id topic _ _ =>
       ([Respond (resultResponse id topic (NodesResult []))], Returned tt) |}.

Definition encoders : DappEncoders :=
  {| transactionToBase64 := @transactionToBase64String Fixtures.wire;
     messageToBase64 :=
       fun m => match m with
                | MessageBytes b => Base64.encodeBytes b
                | MessageText s =>
                    Base64.encodeBytes (map byte_of_ascii (list_ascii_of_string s))
                end |}.

(** A signer that cannot sign the second prepared transaction. *)
Definition pickySigner : HederaWallet :=
  {| getNetwork := getNetwork Fixtures.signer;
     sign := fun _ => Returned [];
     signTransaction :=
       fun t => match bodyBytes t with
                | [_; _] => Thrown (Error "transaction must have been frozen")
                | _ => Returned t
                end;
     call := call Fixtures.signer;
     executeQuery := fun _ => Thrown (Error "INSUFFICIENT_PAYER_BALANCE") |}.

(** A wire format whose transactions come back with their identifiers. *)
Definition wire : WireFormat :=
  {| Transaction_toBytes := bodyBytes;
     Transaction_fromBytes :=
       fun bs =>
         match bs with
         | [] => Thrown (DecodeError "empty transaction")
         | _ => Returned (mkTransaction
                            (Some (mkTransactionId Fixtures.operator 1700000000))
                            (Some [Fixtures.node3]) bs)
         end;
     Query_toBytes := queryBytes;
     Query_fromBytes := @Query_fromBytes Fixtures.wire;
     SignatureMap_toBytes := @SignatureMap_toBytes Fixtures.wire |}.

Definition codec : Codec := @sharedCodec wire.

End Doubles.

(* ================================================================== *)
(** ** Validation *)

Lemma validateParam_string (name : string) (v : JsValue) :
  validateParam name v "string" =
  if isString v then Returned tt
  else Thrown (InvalidParamsError
                 {| offender := name; expected := "string"; actual := typeof v |}).
Proof. destruct v; reflexivity. Qed.

Lemma validateParam_array (name : string) (v : JsValue) :
  validateParam name v "array" =
  if isArray v then Returned tt
  else Thrown (InvalidParamsError
                 {| offender := name; expected := "array"; actual := typeof v |}).
Proof. destruct v; reflexivity. Qed.

Lemma forEachFrom_validate (field : string) (l : list JsValue) :
  forall i,
    forEachFrom i
      (fun v index => validateParam (field ++ "[" ++ showIndex index ++ "]") v "string") l =
    match firstBadElement field i l with
    | None => Returned tt
    | Some viol => Thrown (InvalidParamsError viol)
    end.
Proof.
  induction l as [|v rest IH]; intros i; simpl.
  - reflexivity.
  - rewrite validateParam_string.
    destruct (isString v); simpl.
    + apply IH.
    + reflexivity.
Qed.

Lemma validateElements_firstBad (field : string) (v : JsValue) :
  validateElements field v =
  match firstBadElement field 0 (elementsOf v) with
  | None => Returned tt
  | Some viol => Thrown (InvalidParamsError viol)
  end.
Proof. unfold validateElements, forEach. apply forEachFrom_validate. Qed.

(** A field is wrongly shaped exactly when checking it reports a
    violation. *)
Lemma firstBadElement_none (field : string) (l : list JsValue) :
  forall i, firstBadElement field i l = None <-> forallb isString l = true.
Proof.
  induction l as [|v rest IH]; intros i; simpl.
  - tauto.
  - destruct (isString v); simpl.
    + apply IH.
    + split; discriminate.
Qed.

Lemma fieldViolation_none (params : JsValue) (field : string * Shape) :
  fieldViolation params field = None <->
  wellShaped (snd field) (getOpt params (fst field)) = true.
Proof.
  unfold fieldViolation, wellShaped.
  destruct (snd field).
  - destruct (isString _); split; congruence.
  - destruct (isArray _); simpl.
    + apply firstBadElement_none.
    + split; discriminate.
Qed.

Lemma firstViolation_none (params : JsValue) (schema : list (string * Shape)) :
  firstViolation params schema = None <->
  Forall (fun field => wellShaped (snd field) (getOpt params (fst field)) = true) schema.
Proof.
  induction schema as [|field rest IH]; simpl.
  - split; auto.
  - destruct (fieldViolation params field) eqn:E.
    + split; [discriminate|].
      intros H. inversion H as [|? ? Hw _]; subst.
      apply fieldViolation_none in Hw. congruence.
    + rewrite IH. apply fieldViolation_none in E.
      split; intros H.
      * constructor; assumption.
      * inversion H; assumption.
Qed.

(** The violation reported names a declared field whose value is wrongly
    shaped, alone or followed by an element index. *)
Lemma firstBadElement_names (field : string) (l : list JsValue) (viol : Violation) :
  forall i,
    firstBadElement field i l = Some viol ->
    exists k v,
      nth_error l k = Some v /\ isString v = false /\
      viol = {| offender := field ++ "[" ++ showIndex (i + k) ++ "]";
                expected := "string"; actual := typeof v |}.
Proof.
  induction l as [|v rest IH]; intros i; simpl.
  - discriminate.
  - destruct (isString v) eqn:E.
    + intros H. destruct (IH _ H) as (k & w & Hk & Hw & ->).
      exists (S k), w. repeat split; auto.
      now rewrite Nat.add_succ_r.
    + intros [= <-]. exists 0%nat, v. repeat split; auto.
      now rewrite Nat.add_0_r.
Qed.

(* ================================================================== *)
(** ** The [switch] of the parser, method by method *)

Section ParserFacts.
Context {sdk : Sdk} {codec : Codec}.

Lemma method_known_or_not (method : string) :
  In method HederaJsonRpcMethod.values \/ ~ In method HederaJsonRpcMethod.values.
Proof.
  destruct (in_dec string_dec method HederaJsonRpcMethod.values); auto.
Qed.

Lemma unknown_method_eqb (method : string) :
  ~ In method HederaJsonRpcMethod.values ->
  (method =? "hedera_getNodeAddresses") = false /\
  (method =? "hedera_executeTransaction") = false /\
  (method =? "hedera_signMessage") = false /\
  (method =? "hedera_signQueryAndSend") = false /\
  (method =? "hedera_signAndExecuteTransaction") = false /\
  (method =? "hedera_signTransaction") = false.
Proof.
  intros H. repeat split; apply String.eqb_neq; intros ->; apply H; simpl; tauto.
Qed.

Lemma switchMethod_unknown (method : string) (params : JsValue) (l : Locals) :
  ~ In method HederaJsonRpcMethod.values ->
  switchMethod method params l = (Thrown InvalidMethodError, l).
Proof.
  intros H. destruct (unknown_method_eqb _ H) as (E1 & E2 & E3 & E4 & E5 & E6).
  unfold switchMethod, HederaJsonRpcMethod.GetNodeAddresses,
    HederaJsonRpcMethod.ExecuteTransaction, HederaJsonRpcMethod.SignMessage,
    HederaJsonRpcMethod.SignQueryAndSend,
    HederaJsonRpcMethod.SignAndExecuteTransaction,
    HederaJsonRpcMethod.SignTransaction.
  rewrite E1, E2, E3, E4, E5, E6. reflexivity.
Qed.

Lemma schemaFor_unknown (method : string) :
  ~ In method HederaJsonRpcMethod.values -> schemaFor method = None.
Proof.
  intros H. destruct (unknown_method_eqb _ H) as (E1 & E2 & E3 & E4 & E5 & E6).
  unfold schemaFor. rewrite E1, E2, E3, E4, E5, E6. reflexivity.
Qed.

End ParserFacts.

Section ParserFacts2.
Context {sdk : Sdk} {codec : Codec}.

Lemma schemaFor_known (method : string) (schema : list (string * Shape)) :
  schemaFor method = Some schema -> In method HederaJsonRpcMethod.values.
Proof.
  intros H. destruct (method_known_or_not method) as [|U]; auto.
  rewrite (schemaFor_unknown _ U) in H. discriminate.
Qed.

Ltac parser_case :=
  match goal with
  | |- context [isString ?v] => destruct (isString v) eqn:?
  | |- context [isArray ?v] => destruct (isArray v) eqn:?
  | |- context [firstBadElement ?f ?i ?l] => destruct (firstBadElement f i l) eqn:?
  | |- context [AccountId_fromString ?s] => destruct (AccountId_fromString s) eqn:?
  | |- context [decodeTransactions ?s] => destruct (decodeTransactions s) eqn:?
  | |- context [base64StringToMessage ?s] => destruct (base64StringToMessage s) eqn:?
  | |- context [base64StringToQuery ?s] => destruct (base64StringToQuery s) eqn:?
  | |- context [truthy ?s] => destruct (truthy s) eqn:?
  end.

Ltac open_switch :=
  cbv [switchMethod bbind eval throw bret setBody setSignerAccountId
       HederaJsonRpcMethod.GetNodeAddresses
       HederaJsonRpcMethod.ExecuteTransaction HederaJsonRpcMethod.SignMessage
       HederaJsonRpcMethod.SignQueryAndSend
       HederaJsonRpcMethod.SignAndExecuteTransaction
       HederaJsonRpcMethod.SignTransaction];
  simpl String.eqb; cbv iota;
  repeat rewrite validateParam_string;
  repeat rewrite validateParam_array;
  repeat rewrite validateElements_firstBad.

Lemma switchMethod_violation (method : string) (params : JsValue) (l : Locals)
  (schema : list (string * Shape)) (viol : Violation) :
  schemaFor method = Some schema ->
  firstViolation params schema = Some viol ->
  switchMethod method params l = (Thrown (InvalidParamsError viol), l).
Proof.
  intros Hs Hv. pose proof (schemaFor_known _ _ Hs) as K.
  simpl in K.
  destruct K as [<-|[<-|[<-|[<-|[<-|[<-|[]]]]]]];
    simpl in Hs; injection Hs as <-;
    revert Hv; cbv [firstViolation fieldViolation fst snd]; open_switch;
    repeat (parser_case; try discriminate; try (intros [= <-]; reflexivity)).
Qed.

Lemma switchMethod_failure (method : string) (params : JsValue)
  (e : JsError) (l' : Locals) :
  switchMethod method params {| body := None; signerAccountId := None |} = (Thrown e, l') ->
  body l' = None /\
  signerAccountId l' =
    if signerValidated method params then
      match AccountId_fromString (asString (getOpt params "signerAccountId")) with
      | Returned a => Some a
      | Thrown _ => None
      end
    else None.
Proof.
  destruct (method_known_or_not method) as [K|U].
  - simpl in K.
    destruct K as [<-|[<-|[<-|[<-|[<-|[<-|[]]]]]]];
      cbv [signerValidated schemaFor declaresSigner existsb firstViolation
           fieldViolation fst snd isNone];
      simpl String.eqb; cbv iota; simpl orb; simpl andb; open_switch;
      repeat (parser_case; simpl;
              try discriminate;
              try (intros [= <- <-]; simpl; split; reflexivity)).
  - rewrite switchMethod_unknown by assumption.
    unfold signerValidated. rewrite schemaFor_unknown by assumption.
    intros [= <- <-]. split; reflexivity.
Qed.

(** With [shouldThrow = false] the parser returns whatever happens. *)
Lemma parse_lenient_returns (event : SessionRequest) :
  exists d,
    parseSessionRequest event false = Returned d /\
    d_id d = ev_id event /\ d_topic d = ev_topic event /\
    d_method d = rq_method (rp_request (ev_params event)) /\
    d_chainId d = rp_chainId (ev_params event).
Proof.
  unfold parseSessionRequest.
  destruct (switchMethod _ _ _) as [[u|e] l];
    eexists; (split; [reflexivity|]); simpl; auto.
Qed.

End ParserFacts2.

Lemma firstViolation_names (params : JsValue) (schema : list (string * Shape))
  (viol : Violation) :
  firstViolation params schema = Some viol ->
  exists field,
    In field schema /\
    wellShaped (snd field) (getOpt params (fst field)) = false /\
    (viol = {| offender := fst field;
               expected := match snd field with
                           | ShapeString => "string"
                           | ShapeArrayOfString => "array"
                           end;
               actual := typeof (getOpt params (fst field)) |}
     \/ exists k v,
          nth_error (elementsOf (getOpt params (fst field))) k = Some v /\
          isString v = false /\
          viol = {| offender := fst field ++ "[" ++ showIndex k ++ "]";
                    expected := "string"; actual := typeof v |}).
Proof.
  induction schema as [|field rest IH]; simpl.
  - discriminate.
  - destruct (fieldViolation params field) as [w|] eqn:E.
    + intros [= ->]. exists field. split; [now left|].
      split.
      * destruct (wellShaped _ _) eqn:W; auto.
        apply fieldViolation_none in W. congruence.
      * revert E. unfold fieldViolation.
        destruct (snd field).
        -- destruct (isString _); [discriminate|]. intros [= <-]. now left.
        -- destruct (isArray _).
           ++ intros H. apply firstBadElement_names in H.
              destruct H as (k & v & Hk & Hv & ->). right. exists k, v. auto.
           ++ intros [= <-]. now left.
    + intros H. destruct (IH H) as (f & Hin & Hw & Hd).
      exists f. split; [now right|]. auto.
Qed.

(* ================================================================== *)
(** ** Scenarios *)

Example parse_getNodeAddresses_null :
  @parseSessionRequest Fixtures.sdk Fixtures.codec
    (Fixtures.event "hedera_getNodeAddresses" JsNull) true
  = Returned (routingOnly (Fixtures.event "hedera_getNodeAddresses" JsNull)).
Proof. reflexivity. Qed.

Example parse_signMessage :
  @parseSessionRequest Fixtures.sdk Fixtures.codec
    (Fixtures.event "hedera_signMessage"
       (JsObject [("signerAccountId", JsString "0.0.12345");
                  ("message", JsString "aGVsbG8=")])) true
  = Returned {| d_method := "hedera_signMessage";
                d_chainId := "hedera:testnet";
                d_id := 1717;
                d_topic := "topic-abc";
                d_body := Some (BodyMessages [[x68; x65; x6c; x6c; x6f]]);
                d_accountId := Some Fixtures.operator |}.
Proof. reflexivity. Qed.

Example parse_missing_params :
  @parseSessionRequest Fixtures.sdk Fixtures.codec
    (Fixtures.event "hedera_signTransaction" JsUndefined) true
  = Thrown (HederaError "INVALID_PARAMS"
      (Some "Invalid paramameter value for signerAccountId, expected string but got undefined")).
Proof. reflexivity. Qed.

Example parse_array_expected :
  @parseSessionRequest Fixtures.sdk Fixtures.codec
    (Fixtures.event "hedera_signTransaction"
       (JsObject [("signerAccountId", JsString "0.0.12345");
                  ("transaction", JsObject [("bytes", JsString "AQID")])])) true
  = Thrown (HederaError "INVALID_PARAMS"
      (Some "Invalid paramameter value for transaction, expected array but got object")).
Proof. reflexivity. Qed.

Example getNodeAddresses_answers :
  @hedera_getNodeAddresses Fixtures.sdk Fixtures.transport 1717 "topic-abc" Fixtures.signer
  = ([SignerGetNetwork;
      Respond (resultResponse 1717 "topic-abc" (NodesResult ["0.0.3"]))],
     Returned tt).
Proof. reflexivity. Qed.

Example reject_invalid_method :
  @rejectSessionRequest Fixtures.sdk Fixtures.codec Fixtures.transport
    (Fixtures.event "hedera_unknown" (JsNumber 5))
    {| code := 5000; message := "User rejected" |}
  = ([Respond {| topic := "topic-abc";
                 response := {| jsonrpc := "2.0"; resp_id := 1717;
                                payload := inr {| code := 5000;
                                                  message := "User rejected" |} |} |}],
     Returned tt).
Proof. reflexivity. Qed.

(* ================================================================== *)
(** ** The parser and the rejection path: the claims *)

(** C7.  An envelope whose wire method name is none of the six supported
    ones makes the strict parser fail with [InvalidMethodError].  The
    statement holds for every parameter value, every SDK and every codec,
    and the [switch] leaves both local variables untouched: neither
    schema validation nor payload decoding takes part in the outcome. *)
Theorem unknown_method_rejected (sdk : Sdk) (codec : Codec) (event : SessionRequest) :
  ~ In (rq_method (rp_request (ev_params event))) HederaJsonRpcMethod.values ->
  parseSessionRequest event true = Thrown InvalidMethodError /\
  forall l, switchMethod (rq_method (rp_request (ev_params event)))
                         (rq_params (rp_request (ev_params event))) l
            = (Thrown InvalidMethodError, l).
Proof.
  intros U. split.
  - unfold parseSessionRequest. now rewrite switchMethod_unknown.
  - intros l. now apply switchMethod_unknown.
Qed.

Lemma unknown_method_rejected_witness :
  @parseSessionRequest Fixtures.sdk Fixtures.codec
    (Fixtures.event "hedera_sendTransactionOnly"
       (JsObject [("signedTransaction", JsNumber 7)])) true
  = Thrown InvalidMethodError.
Proof.
  apply (unknown_method_rejected Fixtures.sdk Fixtures.codec
           (Fixtures.event "hedera_sendTransactionOnly"
              (JsObject [("signedTransaction", JsNumber 7)]))).
  simpl. intros [H|[H|[H|[H|[H|[H|[]]]]]]]; discriminate H.
Defined.

(** C8.  Rejecting any envelope, however malformed its method or
    parameters, makes exactly one call to the transport, with the
    error-shaped response carrying the envelope's own id and topic and
    the caller's code and message; the rejection settles as that one
    call does, the parser contributing no failure of its own. *)
Theorem reject_always_answers (sdk : Sdk) (codec : Codec) (transport : Transport)
  (event : SessionRequest) (error : ErrorPayload) :
  rejectSessionRequest event error =
  ([Respond (errorResponse event error)], deliver (errorResponse event error)).
Proof.
  unfold rejectSessionRequest, respondSessionRequest, settle, perform, abind.
  destruct (parse_lenient_returns event) as (d & -> & Hid & Htopic & _).
  rewrite Hid, Htopic. reflexivity.
Qed.

(** C3, as the code has it.  For [hedera_getNodeAddresses] the strict
    parser fails with the bare [INVALID_PARAMS] error exactly when the
    parameters are truthy; for [null], [undefined] and every other falsy
    value it returns the descriptor without body and account. *)
Theorem getNodeAddresses_params_truthiness (sdk : Sdk) (codec : Codec)
  (id : Z) (topic chainId : string) (params : JsValue) :
  let event :=
    {| ev_id := id; ev_topic := topic;
       ev_params := {| rp_request := {| rq_method := HederaJsonRpcMethod.GetNodeAddresses;
                                        rq_params := params |};
                       rp_chainId := chainId |} |} in
  parseSessionRequest event true =
    (if truthy params then Thrown (HederaError "INVALID_PARAMS" None)
     else Returned (routingOnly event)) /\
  truthy JsNull = false /\ truthy JsUndefined = false.
Proof.
  simpl. split; [|split; reflexivity].
  unfold parseSessionRequest; simpl.
  cbv [switchMethod HederaJsonRpcMethod.GetNodeAddresses]; simpl String.eqb; cbv iota.
  destruct (truthy params); reflexivity.
Qed.

(** C3, counterexample.  The parameters [0] are neither [null] nor
    [undefined], yet the strict parser accepts the request. *)
Lemma getNodeAddresses_zero_accepted :
  let event := Fixtures.event "hedera_getNodeAddresses" (JsNumber 0) in
  rq_params (rp_request (ev_params event)) <> JsNull /\
  rq_params (rp_request (ev_params event)) <> JsUndefined /\
  @parseSessionRequest Fixtures.sdk Fixtures.codec event true
  = Returned (routingOnly event).
Proof.
  simpl. split; [discriminate|]. split; [discriminate|]. reflexivity.
Qed.

(** C6.  When some declared field of the request has the wrong shape,
    the strict parser fails with the [InvalidParamsError] of the first
    violation met in schema order.  Its message names the offender, the
    expected shape and the actual type; the offender is a declared field
    of the wrong shape, either the field itself or, for a non-string
    array element, the field followed by the zero-based index of that
    element. *)
Theorem wrong_shape_reported (sdk : Sdk) (codec : Codec) (event : SessionRequest)
  (schema : list (string * Shape)) :
  let method := rq_method (rp_request (ev_params event)) in
  let params := rq_params (rp_request (ev_params event)) in
  schemaFor method = Some schema ->
  Exists (fun field => wellShaped (snd field) (getOpt params (fst field)) = false) schema ->
  exists viol,
    firstViolation params schema = Some viol /\
    parseSessionRequest event true =
      Thrown (HederaError "INVALID_PARAMS"
                (Some ("Invalid paramameter value for " ++ offender viol
                       ++ ", expected " ++ expected viol
                       ++ " but got " ++ actual viol))) /\
    exists field,
      In field schema /\
      wellShaped (snd field) (getOpt params (fst field)) = false /\
      (viol = {| offender := fst field;
                 expected := match snd field with
                             | ShapeString => "string"
                             | ShapeArrayOfString => "array"
                             end;
                 actual := typeof (getOpt params (fst field)) |}
       \/ exists k v,
            nth_error (elementsOf (getOpt params (fst field))) k = Some v /\
            isString v = false /\
            viol = {| offender := fst field ++ "[" ++ showIndex k ++ "]";
                      expected := "string"; actual := typeof v |}).
Proof.
  intros method params Hs Hex.
  destruct (firstViolation params schema) as [viol|] eqn:Hv.
  - exists viol. split; [reflexivity|]. split.
    + unfold parseSessionRequest. fold method. fold params.
      now rewrite (switchMethod_violation _ _ _ _ _ Hs Hv).
    + now apply firstViolation_names.
  - exfalso. apply firstViolation_none in Hv.
    apply Exists_exists in Hex. destruct Hex as (f & Hin & Hw).
    rewrite Forall_forall in Hv. specialize (Hv f Hin). congruence.
Qed.

Lemma wrong_shape_reported_witness :
  @parseSessionRequest Fixtures.sdk Fixtures.codec
    (Fixtures.event "hedera_executeTransaction"
       (JsObject [("signedTransaction", JsArray [JsNumber 123])])) true
  = Thrown (HederaError "INVALID_PARAMS"
      (Some "Invalid paramameter value for signedTransaction[0], expected string but got number")).
Proof.
  pose proof (wrong_shape_reported Fixtures.sdk Fixtures.codec
                (Fixtures.event "hedera_executeTransaction"
                   (JsObject [("signedTransaction", JsArray [JsNumber 123])]))
                [("signedTransaction", ShapeArrayOfString)] eq_refl) as W.
  cbv zeta in W. lapply W; [|constructor; reflexivity].
  intros (viol & Hv & Hp & _).
  simpl in Hv. injection Hv as <-. exact Hp.
Defined.

(** C2, as the code has it.  When the strict parser fails, the lenient
    one ([shouldThrow = false]) swallows the error and returns a
    descriptor with the envelope's id, topic, method and chainId and no
    body.  The account is absent too when the request failed validation
    or names no signer; when validation passed, the account is whatever
    [signerAccountId] parsed to, the error having come from the parsing
    of that field (account absent) or from the later decoding of the
    payload (account present). *)
Theorem lenient_parse_after_error (sdk : Sdk) (codec : Codec)
  (event : SessionRequest) (e : JsError) :
  let method := rq_method (rp_request (ev_params event)) in
  let params := rq_params (rp_request (ev_params event)) in
  parseSessionRequest event true = Thrown e ->
  parseSessionRequest event false =
    Returned
      {| d_method := method;
         d_chainId := rp_chainId (ev_params event);
         d_id := ev_id event;
         d_topic := ev_topic event;
         d_body := None;
         d_accountId :=
           if signerValidated method params then
             match AccountId_fromString (asString (getOpt params "signerAccountId")) with
             | Returned a => Some a
             | Thrown _ => None
             end
           else None |} /\
  (signerValidated method params = false ->
   parseSessionRequest event false = Returned (routingOnly event)).
Proof.
  intros method params. unfold parseSessionRequest. fold method. fold params.
  destruct (switchMethod method params _) as [[u|e'] l'] eqn:E; [discriminate|].
  intros _. destruct (switchMethod_failure _ _ _ _ E) as (Hb & Ha).
  rewrite Hb, Ha. split; [reflexivity|].
  intros ->. reflexivity.
Qed.

Lemma lenient_parse_after_error_witness :
  @parseSessionRequest Fixtures.sdk Fixtures.codec
    (Fixtures.event "hedera_signMessage"
       (JsObject [("signerAccountId", JsString "0.0.12345")])) false
  = Returned (routingOnly
      (Fixtures.event "hedera_signMessage"
         (JsObject [("signerAccountId", JsString "0.0.12345")]))).
Proof.
  refine (proj2 (lenient_parse_after_error Fixtures.sdk Fixtures.codec
                   (Fixtures.event "hedera_signMessage"
                      (JsObject [("signerAccountId", JsString "0.0.12345")]))
                   (InvalidParamsError
                      {| offender := "message"; expected := "string";
                         actual := "undefined" |})
                   _) _); reflexivity.
Defined.

(** C2, counterexample.  A [hedera_signQueryAndSend] request with a valid
    [signerAccountId] and a query that does not decode: the strict parser
    fails with the decoding error, and the lenient parser returns a
    descriptor whose account is populated. *)
Lemma lenient_parse_keeps_account :
  let event :=
    Fixtures.event "hedera_signQueryAndSend"
      (JsObject [("signerAccountId", JsString "0.0.12345"); ("query", JsString "!")]) in
  @parseSessionRequest Fixtures.sdk Fixtures.codec event true
  = Thrown (DecodeError "invalid base64") /\
  @parseSessionRequest Fixtures.sdk Fixtures.codec event false
  = Returned {| d_method := "hedera_signQueryAndSend";
                d_chainId := "hedera:testnet";
                d_id := 1717;
                d_topic := "topic-abc";
                d_body := None;
                d_accountId := Some Fixtures.operator |} /\
  @parseSessionRequest Fixtures.sdk Fixtures.codec event false
  <> Returned (routingOnly event).
Proof.
  simpl. split; [reflexivity|]. split; [reflexivity|]. discriminate.
Qed.

(* ================================================================== *)
(** ** Promises and effects *)

Lemma responses_app (t t' : list Effect) :
  responses (t ++ t') = (responses t ++ responses t')%list.
Proof. unfold responses. now rewrite flat_map_app. Qed.

Lemma submissions_app (t t' : list Effect) :
  submissions (t ++ t') = (submissions t ++ submissions t')%list.
Proof. unfold submissions. now rewrite flat_map_app. Qed.

Lemma Promise_all_effects {A B} (f : A -> Async B) (l : list A) :
  fst (Promise_all (map f l)) = flat_map (fun a => fst (f a)) l.
Proof.
  induction l as [|a rest IH]; simpl.
  - reflexivity.
  - destruct (f a) as [t o]. destruct (Promise_all (map f rest)) as [t' os].
    simpl in *. now rewrite IH.
Qed.

Lemma Promise_all_fulfilled {A B} (f : A -> Async B) (l : list A) (rs : list B) :
  Forall2 (fun a r => snd (f a) = Returned r) l rs ->
  snd (Promise_all (map f l)) = Returned rs.
Proof.
  induction 1 as [|a r l rs Ha _ IH]; simpl.
  - reflexivity.
  - destruct (f a) as [t o]. destruct (Promise_all (map f l)) as [t' os].
    simpl in *. now subst.
Qed.

Lemma Promise_all_rejected {A B} (f : A -> Async B) (l : list A) :
  Exists (fun a => exists e, snd (f a) = Thrown e) l ->
  exists e, snd (Promise_all (map f l)) = Thrown e.
Proof.
  induction 1 as [a l (e & He)|a l _ (e & IH)]; simpl.
  - destruct (f a) as [t o]. destruct (Promise_all (map f l)) as [t' os].
    simpl in *. subst. now exists e.
  - destruct (f a) as [t [r|e']]; destruct (Promise_all (map f l)) as [t' os];
      simpl in *; subst; eauto.
Qed.

Lemma Forall_choose {A B} (R : A -> B -> Prop) (l : list A) :
  Forall (fun a => exists b, R a b) l -> exists bs, Forall2 R l bs.
Proof.
  induction 1 as [|a l (b & Hb) _ (bs & IH)].
  - exists []. constructor.
  - exists (b :: bs). now constructor.
Qed.

(* ================================================================== *)
(** ** One transaction through [submitTransaction] *)

Section HandlerFacts.
Context {sdk : Sdk} {codec : Codec} {transport : Transport}.

Lemma submitTransaction_ready (signer : HederaWallet) (t : Transaction) (h : bytes) :
  identified t = true ->
  getTransactionHash t = Returned h ->
  exists r,
    submitTransaction signer t = (SignerCall t :: logged (call signer t), Returned r) /\
    recordFor signer t r.
Proof.
  unfold identified, submitTransaction, recordFor, transactionIdString, firstNodeIdString.
  destruct (transactionId t) as [i|]; [|discriminate].
  destruct (nodeAccountIds t) as [[|n ns]|]; try discriminate.
  intros _ Hh. rewrite Hh. simpl.
  destruct (call signer t) as [[]|err]; simpl.
  - eexists. split; [reflexivity|]. simpl.
    split; [reflexivity|]. split; [reflexivity|]. split; [now exists h|reflexivity].
  - eexists. split; [reflexivity|]. simpl.
    split; [reflexivity|]. split; [reflexivity|]. split; [now exists h|].
    destruct err; reflexivity.
Qed.

Lemma submitTransaction_unidentified (signer : HederaWallet) (t : Transaction) :
  identified t = false ->
  exists e, submitTransaction signer t = ([], Thrown e).
Proof.
  unfold identified, submitTransaction, transactionIdString, firstNodeIdString.
  destruct (transactionId t) as [i|]; simpl.
  - destruct (nodeAccountIds t) as [[|n ns]|]; try discriminate; simpl; eauto.
  - eauto.
Qed.

(** Whatever happens to a transaction, submitting it sends no response,
    and hands nothing but that transaction to the signer. *)
Lemma submitTransaction_effects (signer : HederaWallet) (t : Transaction) :
  responses (fst (submitTransaction signer t)) = [] /\
  (submissions (fst (submitTransaction signer t)) = [] \/
   submissions (fst (submitTransaction signer t)) = [t]).
Proof.
  unfold submitTransaction.
  destruct (transactionIdString t); simpl; auto.
  destruct (firstNodeIdString t); simpl; auto.
  destruct (getTransactionHash t); simpl; auto.
  destruct (call signer t) as [[]|err]; simpl; auto.
Qed.

Lemma submit_all_no_response (signer : HederaWallet) (l : list Transaction) :
  responses (fst (Promise_all (map (submitTransaction signer) l))) = [].
Proof.
  rewrite Promise_all_effects.
  induction l as [|t rest IH]; simpl.
  - reflexivity.
  - rewrite responses_app, IH.
    now rewrite (proj1 (submitTransaction_effects signer t)).
Qed.

Lemma sign_all_effects (signer : HederaWallet) (l : list Transaction) :
  fst (Promise_all (map (signOne signer) l)) = map SignerSignTransaction l.
Proof.
  rewrite Promise_all_effects. unfold signOne, perform.
  induction l as [|t rest IH]; simpl; [reflexivity|now f_equal].
Qed.

Lemma sign_all_quiet (signer : HederaWallet) (l : list Transaction) :
  responses (map SignerSignTransaction l) = [] /\
  submissions (map SignerSignTransaction l) = [].
Proof. induction l; simpl; auto. Qed.

End HandlerFacts.

Section HandlerFacts2.
Context {sdk : Sdk} {codec : Codec} {transport : Transport}.

Lemma submitEffects_quiet (signer : HederaWallet) (l : list Transaction) :
  responses (submitEffects signer l) = [] /\
  submissions (submitEffects signer l) = l.
Proof.
  unfold submitEffects. induction l as [|t rest [IH1 IH2]]; simpl; [auto|].
  rewrite responses_app, submissions_app, IH1, IH2.
  destruct (call signer t); simpl; auto.
Qed.

Lemma submit_all_ready (signer : HederaWallet) (l : list Transaction) :
  Forall ready l ->
  exists results,
    Promise_all (map (submitTransaction signer) l)
    = (submitEffects signer l, Returned results) /\
    Forall2 (recordFor signer) l results.
Proof.
  intros H.
  assert (Forall (fun t => exists r,
            submitTransaction signer t = (SignerCall t :: logged (call signer t), Returned r)
            /\ recordFor signer t r) l) as H'.
  { eapply Forall_impl; [|exact H]. intros t (Hi & h & Hh).
    now apply (submitTransaction_ready signer t h). }
  apply Forall_choose in H'. destruct H' as (results & H2).
  exists results. split.
  - rewrite (surjective_pairing (Promise_all _)). f_equal.
    + rewrite Promise_all_effects. unfold submitEffects.
      clear H. induction H2 as [|t r l rs (Ht & _) _ IH]; simpl; [reflexivity|].
      now rewrite Ht, IH.
    + apply Promise_all_fulfilled.
      eapply Forall2_impl; [|exact H2]. intros t r (-> & _). reflexivity.
  - eapply Forall2_impl; [|exact H2]. now intros t r (_ & ?).
Qed.

Lemma submit_all_unidentified (signer : HederaWallet) (l : list Transaction) :
  Exists (fun t => identified t = false) l ->
  exists e, snd (Promise_all (map (submitTransaction signer) l)) = Thrown e.
Proof.
  intros H. apply Promise_all_rejected.
  eapply Exists_impl; [|exact H]. intros t Ht.
  destruct (submitTransaction_unidentified signer t Ht) as (e & ->). now exists e.
Qed.

Lemma submitted_is_identified (signer : HederaWallet) (l : list Transaction) (x : Transaction) :
  In x (submissions (fst (Promise_all (map (submitTransaction signer) l)))) ->
  In x l /\ identified x = true.
Proof.
  rewrite Promise_all_effects.
  induction l as [|t rest IH]; simpl; [tauto|].
  rewrite submissions_app, in_app_iff. intros [H|H].
  - destruct (identified t) eqn:Hi.
    + destruct (proj2 (submitTransaction_effects signer t)) as [E|E];
        rewrite E in H; simpl in H; [tauto|].
      destruct H as [<-|[]]. auto.
    + destruct (submitTransaction_unidentified signer t Hi) as (e & E).
      rewrite E in H. simpl in H. tauto.
  - destruct (IH H). auto.
Qed.

Lemma sign_all_ok (signer : HederaWallet) (l signed : list Transaction) :
  Forall2 (fun t s => signTransaction signer t = Returned s) l signed ->
  Promise_all (map (signOne signer) l) = (map SignerSignTransaction l, Returned signed).
Proof.
  intros H. rewrite (surjective_pairing (Promise_all _)). f_equal.
  - apply sign_all_effects.
  - apply Promise_all_fulfilled. exact H.
Qed.

Lemma sign_all_fail (signer : HederaWallet) (l : list Transaction) :
  Exists (fun t => exists e, signTransaction signer t = Thrown e) l ->
  exists e, Promise_all (map (signOne signer) l) = (map SignerSignTransaction l, Thrown e).
Proof.
  intros H.
  destruct (Promise_all_rejected (signOne signer) l H) as (e & He).
  exists e. rewrite (surjective_pairing (Promise_all _)). f_equal; [|exact He].
  apply sign_all_effects.
Qed.

Lemma sign_all_or_fail (signer : HederaWallet) (l : list Transaction) :
  (exists signed, Forall2 (fun t s => signTransaction signer t = Returned s) l signed)
  \/ Exists (fun t => exists e, signTransaction signer t = Thrown e) l.
Proof.
  induction l as [|t rest [(signed & IH)|IH]].
  - left. exists []. constructor.
  - destruct (signTransaction signer t) as [s|e] eqn:E.
    + left. exists (s :: signed). now constructor.
    + right. left. now exists e.
  - right. now right.
Qed.

Lemma signed_unidentified (signer : HederaWallet) (l signed : list Transaction) :
  signsInPlace signer ->
  Forall2 (fun t s => signTransaction signer t = Returned s) l signed ->
  Exists (fun t => identified t = false) l ->
  Exists (fun s => identified s = false) signed.
Proof.
  intros P H. induction H as [|t s l signed Hs _ IH]; intros E.
  - inversion E.
  - inversion E as [? ? Ht|? ? Hl]; subst.
    + left. destruct (P _ _ Hs) as (E1 & E2).
      unfold identified in *. now rewrite E1, E2.
    + right. auto.
Qed.

End HandlerFacts2.

(* ================================================================== *)
(** ** The handlers: the claims *)

(** C4.  On a batch of N transactions, each handler that gets through
    sends exactly one response, whose result array has N entries in input
    order.  For [hedera_executeTransaction] the i-th record is that of
    the i-th transaction; for [hedera_signAndExecuteTransaction] it is
    that of the i-th transaction as signed; in both a submission that
    succeeds leaves [precheckCode] at 0.  For [hedera_signTransaction]
    the i-th entry is the base64 signature map of the i-th transaction as
    signed; that handler hands nothing to [signer.call], whatever the
    batch. *)
Theorem batch_results_in_order (sdk : Sdk) (codec : Codec) (transport : Transport)
  (id : Z) (topic : string) (body : list Transaction) (signer : HederaWallet) :
  (Forall ready body ->
   exists results effects,
     hedera_executeTransaction id topic body signer =
       ((effects ++ [Respond (resultResponse id topic (TransactionResults results))])%list,
        deliver (resultResponse id topic (TransactionResults results))) /\
     responses effects = [] /\
     List.length results = List.length body /\
     Forall2 (fun t r => recordFor signer t r /\
                         (call signer t = Returned tt -> r_precheckCode r = 0%Z))
             body results)
  /\
  (Forall (fun t => exists s, signTransaction signer t = Returned s /\ ready s) body ->
   exists signed results effects,
     hedera_signAndExecuteTransaction id topic body signer =
       ((effects ++ [Respond (resultResponse id topic (TransactionResults results))])%list,
        deliver (resultResponse id topic (TransactionResults results))) /\
     responses effects = [] /\
     List.length results = List.length body /\
     Forall2 (fun t s => signTransaction signer t = Returned s) body signed /\
     Forall2 (fun s r => recordFor signer s r /\
                         (call signer s = Returned tt -> r_precheckCode r = 0%Z))
             signed results)
  /\
  (Forall (fun t => exists s m, signTransaction signer t = Returned s /\
                                getSignatures s = Returned m) body ->
   exists result effects,
     hedera_signTransaction id topic body signer =
       ((effects ++ [Respond (resultResponse id topic (SignTransactionResult result))])%list,
        deliver (resultResponse id topic (SignTransactionResult result))) /\
     responses effects = [] /\
     List.length result = List.length body /\
     Forall2 (fun t r => exists s m, signTransaction signer t = Returned s /\
                                     getSignatures s = Returned m /\
                                     r = signatureMapToBase64 m)
             body result)
  /\
  submissions (fst (hedera_signTransaction id topic body signer)) = [].
Proof.
  assert (zero : forall l rs,
            Forall2 (recordFor signer) l rs ->
            Forall2 (fun t r => recordFor signer t r /\
                                (call signer t = Returned tt -> r_precheckCode r = 0%Z))
                    l rs).
  { intros l rs H. eapply Forall2_impl; [|exact H].
    intros t r R. split; [exact R|].
    intros E. destruct R as (_ & _ & _ & ->). now rewrite E. }
  split; [|split; [|split]].
  - intros H. destruct (submit_all_ready signer body H) as (results & E & R).
    exists results, (submitEffects signer body).
    unfold hedera_executeTransaction. rewrite E. simpl.
    repeat split.
    + apply (submitEffects_quiet signer body).
    + symmetry. eapply Forall2_length; eauto.
    + now apply zero.
  - intros H.
    assert (exists signed,
              Forall2 (fun t s => signTransaction signer t = Returned s) body signed /\
              Forall ready signed) as (signed & S & Rd).
    { clear zero. induction H as [|t l (s & Hs & Hr) _ (signed & IH1 & IH2)].
      - exists []. split; constructor.
      - exists (s :: signed). split; constructor; auto. }
    destruct (submit_all_ready signer signed Rd) as (results & E & R).
    exists signed, results,
      (map SignerSignTransaction body ++ submitEffects signer signed)%list.
    unfold hedera_signAndExecuteTransaction.
    rewrite (sign_all_ok signer body signed S). simpl. rewrite E. simpl.
    rewrite app_assoc. repeat split.
    + rewrite responses_app, (proj1 (sign_all_quiet signer body)).
      apply (submitEffects_quiet signer signed).
    + rewrite <- (Forall2_length R). symmetry. eapply Forall2_length; eauto.
    + exact S.
    + now apply zero.
  - intros H.
    assert (exists signed result,
              Forall2 (fun t s => signTransaction signer t = Returned s) body signed /\
              mapThrowing (fun transaction =>
                             obind (getSignatures transaction)
                                   (fun m => Returned (signatureMapToBase64 m))) signed
              = Returned result /\
              Forall2 (fun t r => exists s m, signTransaction signer t = Returned s /\
                                     getSignatures s = Returned m /\
                                     r = signatureMapToBase64 m) body result)
      as (signed & result & S & M & R).
    { clear zero.
      induction H as [|t l (s & m & Hs & Hm) _ (signed & result & IH1 & IH2 & IH3)].
      - exists [], []. repeat split; constructor.
      - exists (s :: signed), (signatureMapToBase64 m :: result).
        split; [now constructor|]. split.
        + simpl. rewrite Hm. simpl. now rewrite IH2.
        + constructor; eauto. }
    exists result, (map SignerSignTransaction body).
    unfold hedera_signTransaction.
    rewrite (sign_all_ok signer body signed S). simpl. rewrite M. simpl.
    repeat split.
    + apply (sign_all_quiet signer body).
    + symmetry. eapply Forall2_length; eauto.
    + exact R.
  - unfold hedera_signTransaction.
    destruct (sign_all_or_fail signer body) as [(signed & S)|F].
    + rewrite (sign_all_ok signer body signed S). simpl.
      destruct (mapThrowing _ signed); simpl;
        rewrite ?submissions_app, (proj2 (sign_all_quiet signer body)); reflexivity.
    + destruct (sign_all_fail signer body F) as (e & ->). simpl.
      apply (sign_all_quiet signer body).
Qed.

Lemma batch_results_in_order_witness :
  let body := [Fixtures.prepared; Fixtures.prepared'] in
  (exists results,
     responses (fst (@hedera_executeTransaction Fixtures.sdk Fixtures.codec
                       Fixtures.transport 1717 "topic-abc" body Fixtures.signer))
     = [resultResponse 1717 "topic-abc" (TransactionResults results)] /\
     List.length results = 2%nat) /\
  (exists results,
     responses (fst (@hedera_signAndExecuteTransaction Fixtures.sdk Fixtures.codec
                       Fixtures.transport 1717 "topic-abc" body Fixtures.signer))
     = [resultResponse 1717 "topic-abc" (TransactionResults results)] /\
     List.length results = 2%nat) /\
  (exists result,
     responses (fst (@hedera_signTransaction Fixtures.sdk Fixtures.codec
                       Fixtures.transport 1717 "topic-abc" body Fixtures.signer))
     = [resultResponse 1717 "topic-abc" (SignTransactionResult result)] /\
     List.length result = 2%nat /\
     submissions (fst (@hedera_signTransaction Fixtures.sdk Fixtures.codec
                       Fixtures.transport 1717 "topic-abc" body Fixtures.signer)) = []).
Proof.
  intros body.
  destruct (batch_results_in_order Fixtures.sdk Fixtures.codec Fixtures.transport
              1717 "topic-abc" body Fixtures.signer) as (A & B & C & N).
  assert (@Forall Transaction (@ready Fixtures.sdk) body) as HA.
  { repeat constructor; eexists; reflexivity. }
  assert (Forall (fun t => exists s, signTransaction Fixtures.signer t = Returned s /\
                                     @ready Fixtures.sdk s) body) as HB.
  { repeat constructor; eexists; (split; [reflexivity|]);
      (split; [reflexivity|eexists; reflexivity]). }
  assert (Forall (fun t => exists s m, signTransaction Fixtures.signer t = Returned s /\
                                       @getSignatures Fixtures.sdk s = Returned m) body) as HC.
  { repeat constructor; do 2 eexists; split; reflexivity. }
  split; [|split].
  - destruct (A HA) as (results & effects & E & Q & L & _).
    exists results. rewrite E. simpl fst. rewrite responses_app, Q.
    split; [reflexivity|exact L].
  - destruct (B HB) as (signed & results & effects & E & Q & L & _).
    exists results. rewrite E. simpl fst. rewrite responses_app, Q.
    split; [reflexivity|exact L].
  - destruct (C HC) as (result & effects & E & Q & L & _).
    exists result. split; [|split; [exact L|exact N]].
    rewrite E. simpl fst. rewrite responses_app, Q. reflexivity.
Defined.




(** C5.  When the signer answers a non-empty collection of signatures,
    [hedera_signMessage] sends one response, whose [signatureMap] is the
    base64 text of the signature bytes of the first entry.  The other
    entries have no part in it: a signer answering the same first entry
    followed by anything else gets the same response sent. *)
Theorem signMessage_first_signature (codec : Codec) (transport : Transport)
  (id : Z) (topic : string) (body : list bytes) (signer : HederaWallet)
  (first : SignerSignature) (rest : list SignerSignature) :
  sign signer body = Returned (first :: rest) ->
  let sent :=
    resultResponse id topic
      (SignMessageResult (Uint8ArrayToBase64String (signature first))) in
  hedera_signMessage id topic body signer =
    ([SignerSign body; ConsoleLogSignatures (first :: rest); Respond sent],
     deliver sent) /\
  forall signer' rest',
    sign signer' body = Returned (first :: rest') ->
    responses (fst (hedera_signMessage id topic body signer')) =
    responses (fst (hedera_signMessage id topic body signer)).
Proof.
  intros H sent. unfold hedera_signMessage, perform, settle, abind.
  rewrite H. simpl. split; [reflexivity|].
  intros signer' rest' H'. rewrite H'. reflexivity.
Qed.

Lemma signMessage_first_signature_witness :
  responses (fst (@hedera_signMessage Fixtures.codec Fixtures.transport
                    1717 "topic-abc" [[x01]] Fixtures.signer))
  = [resultResponse 1717 "topic-abc" (SignMessageResult "aGVsbG8=")].
Proof.
  destruct (signMessage_first_signature Fixtures.codec Fixtures.transport
              1717 "topic-abc" [[x01]] Fixtures.signer
              Fixtures.keyPair [Fixtures.keyPair'] eq_refl) as (E & _).
  rewrite E. reflexivity.
Defined.

(** C10.  A transaction of the batch without a transaction id, or without
    a first node account id, makes [hedera_executeTransaction] throw and
    send no response; that transaction is never handed to [signer.call].
    The same holds for [hedera_signAndExecuteTransaction] with a signer
    that returns the transaction it was given: the handler throws, either
    from the signing or from reading the identifiers of the signed
    transaction, and no response is sent. *)
Theorem unidentified_transaction_throws (sdk : Sdk) (codec : Codec)
  (transport : Transport) (id : Z) (topic : string) (body : list Transaction)
  (signer : HederaWallet) :
  Exists (fun t => identified t = false) body ->
  (exists e effects,
     hedera_executeTransaction id topic body signer = (effects, Thrown e) /\
     responses effects = [] /\
     forall t, identified t = false -> ~ In t (submissions effects))
  /\
  (signsInPlace signer ->
   exists e effects,
     hedera_signAndExecuteTransaction id topic body signer = (effects, Thrown e) /\
     responses effects = [] /\
     forall t, identified t = false -> ~ In t (submissions effects)).
Proof.
  intros H. split.
  - destruct (submit_all_unidentified signer body H) as (e & He).
    exists e, (fst (Promise_all (map (submitTransaction signer) body))).
    unfold hedera_executeTransaction.
    rewrite (surjective_pairing (Promise_all _)), He. simpl.
    split; [reflexivity|]. split; [apply submit_all_no_response|].
    intros t Ht Hin. apply submitted_is_identified in Hin. destruct Hin. congruence.
  - intros P. unfold hedera_signAndExecuteTransaction.
    destruct (sign_all_or_fail signer body) as [(signed & S)|F].
    + rewrite (sign_all_ok signer body signed S). simpl abind.
      pose proof (signed_unidentified signer body signed P S H) as U.
      destruct (submit_all_unidentified signer signed U) as (e & He).
      exists e,
        (map SignerSignTransaction body
           ++ fst (Promise_all (map (submitTransaction signer) signed)))%list.
      unfold abind.
      rewrite (surjective_pairing (Promise_all (map (submitTransaction signer) signed))), He.
      split; [reflexivity|]. split.
      * rewrite responses_app, (proj1 (sign_all_quiet signer body)).
        apply submit_all_no_response.
      * intros t Ht Hin.
        rewrite submissions_app, (proj2 (sign_all_quiet signer body)) in Hin.
        apply submitted_is_identified in Hin. destruct Hin. congruence.
    + destruct (sign_all_fail signer body F) as (e & ->).
      exists e, (map SignerSignTransaction body). simpl.
      split; [reflexivity|]. split; [apply (sign_all_quiet signer body)|].
      intros t _. now rewrite (proj2 (sign_all_quiet signer body)).
Qed.

Lemma unidentified_transaction_throws_witness :
  let body := [Fixtures.prepared; Fixtures.withoutTransactionId] in
  (exists e effects,
     @hedera_executeTransaction Fixtures.sdk Fixtures.codec Fixtures.transport
       1717 "topic-abc" body Fixtures.signer = (effects, Thrown e) /\
     responses effects = []) /\
  (exists e effects,
     @hedera_signAndExecuteTransaction Fixtures.sdk Fixtures.codec Fixtures.transport
       1717 "topic-abc" body Fixtures.signer = (effects, Thrown e) /\
     responses effects = []).
Proof.
  intros body.
  assert (Exists (fun t => identified t = false) body) as H.
  { right. left. reflexivity. }
  destruct (unidentified_transaction_throws Fixtures.sdk Fixtures.codec
              Fixtures.transport 1717 "topic-abc" body Fixtures.signer H) as (A & B).
  split.
  - destruct A as (e & effects & E & Q & _). exists e, effects. auto.
  - destruct B as (e & effects & E & Q & _).
    + intros t s [= <-]. auto.
    + exists e, effects. auto.
Defined.

(* ================================================================== *)
(** ** Base64: decoding and encoding are inverse *)

Module Base64Facts.
Import Base64.
Local Open Scope N_scope.

Ltac Zify.zify_post_hook ::= Z.to_euclidean_division_equations.

Lemma value_digit (n : N) : n < 64 -> value (digit n) = Some n.
Proof.
  intros H.
  assert (In n (map N.of_nat (seq 0 64))) as Hin.
  { rewrite <- (N2Nat.id n). apply in_map. apply in_seq. lia. }
  cbv [seq map] in Hin. simpl N.of_nat in Hin.
  repeat (destruct Hin as [<-|Hin]; [reflexivity|]).
  destruct Hin.
Qed.

Lemma digit_value (c : ascii) (n : N) :
  value c = Some n -> n < 64 /\ digit n = c.
Proof.
  destruct c as [[] [] [] [] [] [] [] []]; vm_compute; intros H;
    try discriminate H; injection H as <-; split; reflexivity.
Qed.

Lemma digit_not_pad (n : N) : n < 64 -> Ascii.eqb (digit n) pad = false.
Proof.
  intros H. apply Ascii.eqb_neq. intros E.
  pose proof (value_digit n H) as V. rewrite E in V. discriminate V.
Qed.

Lemma byteOf_to_N (b : byte) : byteOf (Byte.to_N b) = b.
Proof. unfold byteOf. now rewrite Byte.of_to_N. Qed.

Lemma to_N_byteOf (n : N) : n < 256 -> Byte.to_N (byteOf n) = n.
Proof.
  intros H. unfold byteOf. destruct (Byte.of_N n) as [b|] eqn:E.
  - now apply Byte.to_of_N.
  - apply Byte.of_N_None_iff in E. lia.
Qed.

Lemma to_N_lt (b : byte) : Byte.to_N b < 256.
Proof. pose proof (Byte.to_N_bounded b). lia. Qed.

(** *** Arithmetic of a 24-bit quantum *)

Lemma assemble_sextets (q : N) :
  assemble (q / 262144) ((q / 4096) mod 64) ((q / 64) mod 64) (q mod 64) = q.
Proof. unfold assemble. lia. Qed.

Lemma quantum_bytes (a b c : N) :
  b < 256 -> c < 256 ->
  (a * 65536 + b * 256 + c) / 65536 = a /\
  ((a * 65536 + b * 256 + c) / 256) mod 256 = b /\
  (a * 65536 + b * 256 + c) mod 256 = c.
Proof. intros. lia. Qed.

Lemma bytes_quantum (n : N) :
  (n / 65536) * 65536 + ((n / 256) mod 256) * 256 + n mod 256 = n.
Proof. lia. Qed.

Lemma sextets_assemble (v1 v2 v3 v4 : N) :
  v2 < 64 -> v3 < 64 -> v4 < 64 ->
  sextets (assemble v1 v2 v3 v4) = (v1, v2, v3, v4).
Proof.
  intros. unfold sextets, assemble.
  assert ((v1 * 262144 + v2 * 4096 + v3 * 64 + v4) / 262144 = v1) as -> by lia.
  assert (((v1 * 262144 + v2 * 4096 + v3 * 64 + v4) / 4096) mod 64 = v2) as -> by lia.
  assert (((v1 * 262144 + v2 * 4096 + v3 * 64 + v4) / 64) mod 64 = v3) as -> by lia.
  assert ((v1 * 262144 + v2 * 4096 + v3 * 64 + v4) mod 64 = v4) as -> by lia.
  reflexivity.
Qed.

Lemma quantum_lt (a b c : byte) : quantum a b c < 16777216.
Proof.
  unfold quantum.
  pose proof (to_N_lt a). pose proof (to_N_lt b). pose proof (to_N_lt c). lia.
Qed.

Lemma decode4_digits (q : N) :
  q < 16777216 ->
  decode4 (digit (q / 262144)) (digit ((q / 4096) mod 64))
          (digit ((q / 64) mod 64)) (digit (q mod 64))
  = Some [byteOf (q / 65536); byteOf ((q / 256) mod 256); byteOf (q mod 256)].
Proof.
  intros H. unfold decode4.
  rewrite !value_digit by lia. now rewrite assemble_sextets.
Qed.

(** *** Groups of four characters *)

Lemma decode4_encode3 (a b c : byte) :
  exists c1 c2 c3 c4,
    encode3 a b c = [c1; c2; c3; c4] /\
    Ascii.eqb c4 pad = false /\
    decode4 c1 c2 c3 c4 = Some [a; b; c].
Proof.
  pose proof (quantum_lt a b c) as Q.
  do 4 eexists. split; [reflexivity|]. split.
  - apply digit_not_pad. lia.
  - rewrite (decode4_digits _ Q). unfold quantum.
    destruct (quantum_bytes (Byte.to_N a) (Byte.to_N b) (Byte.to_N c)
                (to_N_lt b) (to_N_lt c)) as (-> & -> & ->).
    now rewrite !byteOf_to_N.
Qed.

Lemma decode3_encode2 (a b : byte) :
  exists c1 c2 c3,
    encode2 a b = [c1; c2; c3; pad] /\
    Ascii.eqb c3 pad = false /\
    decode3 c1 c2 c3 = Some [a; b].
Proof.
  pose proof (quantum_lt a b x00) as Q.
  pose proof (to_N_lt a) as A. pose proof (to_N_lt b) as B.
  do 3 eexists. split; [reflexivity|]. split.
  - apply digit_not_pad. lia.
  - unfold decode3. rewrite !value_digit by lia.
    unfold quantum in *. change (Byte.to_N x00) with 0 in *.
    assert (((Byte.to_N a * 65536 + Byte.to_N b * 256 + 0) / 64) mod 64 mod 4 = 0)
      as E by lia.
    rewrite E. simpl N.eqb. cbv iota.
    assert (assemble ((Byte.to_N a * 65536 + Byte.to_N b * 256 + 0) / 262144)
              (((Byte.to_N a * 65536 + Byte.to_N b * 256 + 0) / 4096) mod 64)
              (((Byte.to_N a * 65536 + Byte.to_N b * 256 + 0) / 64) mod 64) 0
            = Byte.to_N a * 65536 + Byte.to_N b * 256 + 0) as -> by (unfold assemble; lia).
    destruct (quantum_bytes (Byte.to_N a) (Byte.to_N b) 0 B eq_refl) as (-> & -> & _).
    now rewrite !byteOf_to_N.
Qed.

Lemma decode2_encode1 (a : byte) :
  exists c1 c2,
    encode1 a = [c1; c2; pad; pad] /\
    decode2 c1 c2 = Some [a].
Proof.
  pose proof (quantum_lt a x00 x00) as Q. pose proof (to_N_lt a) as A.
  do 2 eexists. split; [reflexivity|].
  unfold decode2. rewrite !value_digit by lia.
  unfold quantum in *. change (Byte.to_N x00) with 0 in *.
  assert (((Byte.to_N a * 65536 + 0 * 256 + 0) / 4096) mod 64 mod 16 = 0) as E by lia.
  rewrite E. simpl N.eqb. cbv iota.
  assert (assemble ((Byte.to_N a * 65536 + 0 * 256 + 0) / 262144)
            (((Byte.to_N a * 65536 + 0 * 256 + 0) / 4096) mod 64) 0 0
          = Byte.to_N a * 65536 + 0 * 256 + 0) as -> by (unfold assemble; lia).
  destruct (quantum_bytes (Byte.to_N a) 0 0 eq_refl eq_refl) as (-> & _ & _).
  now rewrite byteOf_to_N.
Qed.

Lemma encode3_decode4 (c1 c2 c3 c4 : ascii) (bs : list byte) :
  decode4 c1 c2 c3 c4 = Some bs ->
  exists a b c, bs = [a; b; c] /\ encode3 a b c = [c1; c2; c3; c4].
Proof.
  unfold decode4.
  destruct (value c1) as [v1|] eqn:E1; [|discriminate].
  destruct (value c2) as [v2|] eqn:E2; [|discriminate].
  destruct (value c3) as [v3|] eqn:E3; [|discriminate].
  destruct (value c4) as [v4|] eqn:E4; [|discriminate].
  apply digit_value in E1, E2, E3, E4.
  destruct E1 as (B1 & <-), E2 as (B2 & <-), E3 as (B3 & <-), E4 as (B4 & <-).
  intros [= <-]. do 3 eexists. split; [reflexivity|].
  unfold encode3, quantum.
  assert (assemble v1 v2 v3 v4 < 16777216) as L by (unfold assemble; lia).
  rewrite !to_N_byteOf by lia.
  rewrite bytes_quantum, sextets_assemble by assumption. reflexivity.
Qed.

Lemma encode2_decode3 (c1 c2 c3 : ascii) (bs : list byte) :
  decode3 c1 c2 c3 = Some bs ->
  exists a b, bs = [a; b] /\ encode2 a b = [c1; c2; c3; pad].
Proof.
  unfold decode3.
  destruct (value c1) as [v1|] eqn:E1; [|discriminate].
  destruct (value c2) as [v2|] eqn:E2; [|discriminate].
  destruct (value c3) as [v3|] eqn:E3; [|discriminate].
  apply digit_value in E1, E2, E3.
  destruct E1 as (B1 & <-), E2 as (B2 & <-), E3 as (B3 & <-).
  destruct (v3 mod 4 =? 0) eqn:Z; [|discriminate].
  apply N.eqb_eq in Z.
  intros [= <-]. do 2 eexists. split; [reflexivity|].
  unfold encode2, quantum. change (Byte.to_N x00) with 0.
  assert (assemble v1 v2 v3 0 < 16777216) as L by (unfold assemble; lia).
  rewrite !to_N_byteOf by lia.
  assert (assemble v1 v2 v3 0 mod 256 = 0) as M by (unfold assemble; lia).
  rewrite <- M at 3.
  rewrite bytes_quantum, sextets_assemble by (assumption || lia). reflexivity.
Qed.

Lemma encode1_decode2 (c1 c2 : ascii) (bs : list byte) :
  decode2 c1 c2 = Some bs ->
  exists a, bs = [a] /\ encode1 a = [c1; c2; pad; pad].
Proof.
  unfold decode2.
  destruct (value c1) as [v1|] eqn:E1; [|discriminate].
  destruct (value c2) as [v2|] eqn:E2; [|discriminate].
  apply digit_value in E1, E2.
  destruct E1 as (B1 & <-), E2 as (B2 & <-).
  destruct (v2 mod 16 =? 0) eqn:Z; [|discriminate].
  apply N.eqb_eq in Z.
  intros [= <-]. eexists. split; [reflexivity|].
  unfold encode1, quantum. change (Byte.to_N x00) with 0.
  assert (assemble v1 v2 0 0 < 16777216) as L by (unfold assemble; lia).
  rewrite !to_N_byteOf by lia.
  assert (assemble v1 v2 0 0 / 65536 * 65536 + 0 * 256 + 0 = assemble v1 v2 0 0)
    as -> by (unfold assemble; lia).
  rewrite sextets_assemble by lia. reflexivity.
Qed.

(** *** Whole texts *)

Lemma bytes_ind3 (P : list byte -> Prop) :
  P [] ->
  (forall a, P [a]) ->
  (forall a b, P [a; b]) ->
  (forall a b c rest, P rest -> P (a :: b :: c :: rest)) ->
  forall l, P l.
Proof.
  intros H0 H1 H2 H3. fix IH 1.
  intros [|a [|b [|c rest]]];
    [apply H0|apply H1|apply H2|apply H3; apply IH].
Qed.

Lemma chars_ind4 (P : list ascii -> Prop) :
  P [] ->
  (forall a, P [a]) ->
  (forall a b, P [a; b]) ->
  (forall a b c, P [a; b; c]) ->
  (forall a b c d rest, P rest -> P (a :: b :: c :: d :: rest)) ->
  forall l, P l.
Proof.
  intros H0 H1 H2 H3 H4. fix IH 1.
  intros [|a [|b [|c [|d rest]]]];
    [apply H0|apply H1|apply H2|apply H3|apply H4; apply IH].
Qed.

Lemma decodeChars_step (c1 c2 c3 c4 : ascii) (rest : list ascii) :
  decodeChars (c1 :: c2 :: c3 :: c4 :: rest) =
  if isNil rest && Ascii.eqb c4 pad then
    if Ascii.eqb c3 pad then decode2 c1 c2 else decode3 c1 c2 c3
  else
    match decode4 c1 c2 c3 c4, decodeChars rest with
    | Some group, Some others => Some (group ++ others)%list
    | _, _ => None
    end.
Proof. reflexivity. Qed.

Lemma decodeChars_encodeChars (bs : list byte) :
  decodeChars (encodeChars bs) = Some bs.
Proof.
  induction bs as [|a|a b|a b c rest IH] using bytes_ind3.
  - reflexivity.
  - destruct (decode2_encode1 a) as (c1 & c2 & E & D).
    change (encodeChars [a]) with (encode1 a). rewrite E.
    rewrite decodeChars_step. exact D.
  - destruct (decode3_encode2 a b) as (c1 & c2 & c3 & E & N3 & D).
    change (encodeChars [a; b]) with (encode2 a b). rewrite E.
    rewrite decodeChars_step. cbn [isNil andb].
    change (Ascii.eqb pad pad) with true. cbv iota. rewrite N3. exact D.
  - destruct (decode4_encode3 a b c) as (c1 & c2 & c3 & c4 & E & N4 & D).
    change (encodeChars (a :: b :: c :: rest))
      with (encode3 a b c ++ encodeChars rest)%list.
    rewrite E.
    change ([c1; c2; c3; c4] ++ encodeChars rest)%list
      with (c1 :: c2 :: c3 :: c4 :: encodeChars rest).
    rewrite decodeChars_step.
    rewrite N4, andb_false_r, D, IH. reflexivity.
Qed.

Lemma encodeChars_decodeChars (cs : list ascii) :
  forall bs, decodeChars cs = Some bs -> encodeChars bs = cs.
Proof.
  induction cs as [|c1|c1 c2|c1 c2 c3|c1 c2 c3 c4 rest IH] using chars_ind4;
    intros bs; try discriminate.
  - intros [= <-]. reflexivity.
  - rewrite decodeChars_step.
    destruct (isNil rest && Ascii.eqb c4 pad) eqn:Last.
    + apply andb_prop in Last. destruct Last as (Nil & P4).
      destruct rest; [|discriminate]. apply Ascii.eqb_eq in P4. subst c4.
      destruct (Ascii.eqb c3 pad) eqn:P3.
      * apply Ascii.eqb_eq in P3. subst c3. intros D.
        apply encode1_decode2 in D. destruct D as (a & -> & E). exact E.
      * intros D.
        apply encode2_decode3 in D. destruct D as (a & b & -> & E). exact E.
    + destruct (decode4 c1 c2 c3 c4) as [group|] eqn:D; [|discriminate].
      destruct (decodeChars rest) as [others|] eqn:R; [|discriminate].
      intros [= <-].
      apply encode3_decode4 in D. destruct D as (a & b & c & -> & E).
      change (encodeChars ([a; b; c] ++ others))
        with (encode3 a b c ++ encodeChars others)%list.
      rewrite E, (IH others eq_refl). reflexivity.
Qed.

(** Decoding an encoded message gives the message back. *)
Lemma decodeMessage_encodeBytes (m : bytes) :
  decodeMessage (encodeBytes m) = Some m.
Proof.
  unfold decodeMessage, encodeBytes.
  rewrite list_ascii_of_string_of_list_ascii. apply decodeChars_encodeChars.
Qed.

(** The test vectors of RFC 4648, section 10. *)
Example rfc4648_vectors :
  encodeBytes [] = ""%string /\
  encodeBytes [x66] = "Zg=="%string /\
  encodeBytes [x66; x6f] = "Zm8="%string /\
  encodeBytes [x66; x6f; x6f] = "Zm9v"%string /\
  encodeBytes [x66; x6f; x6f; x62] = "Zm9vYg=="%string /\
  encodeBytes [x66; x6f; x6f; x62; x61] = "Zm9vYmE="%string /\
  encodeBytes [x66; x6f; x6f; x62; x61; x72] = "Zm9vYmFy"%string /\
  decodeMessage "Zm9vYmE=" = Some [x66; x6f; x6f; x62; x61] /\
  decodeMessage "Zm9vYmF=" = None /\
  decodeMessage "Zm9v YmFy" = None.
Proof. repeat split; reflexivity. Qed.

(** A text decodes exactly when it is the encoding of the bytes it
    decodes to: valid base64 is what the encoder writes. *)
Lemma decodeMessage_iff (x : string) (m : bytes) :
  decodeMessage x = Some m <-> x = encodeBytes m.
Proof.
  split.
  - unfold decodeMessage, encodeBytes. intros H.
    apply encodeChars_decodeChars in H. rewrite H.
    now rewrite string_of_list_ascii_of_string.
  - intros ->. apply decodeMessage_encodeBytes.
Qed.

End Base64Facts.

(* ================================================================== *)
(** ** The codec *)

(** The base64 layer loses nothing.  Every text that [decodeMessage]
    accepts comes back from decoding, encoding, decoding and encoding
    again; a raw message survives encoding then decoding unchanged. *)
Lemma base64_layer_lossless (wire : WireFormat) :
  (forall x m,
     Base64.decodeMessage x = Some m ->
     exists m',
       Base64.decodeMessage (Base64.encodeBytes m) = Some m' /\
       Base64.encodeBytes m' = x)
  /\
  (forall m,
     Base64.decodeMessage (Base64.encodeBytes m) = Some m /\
     base64StringToMessage (Codec := sharedCodec)
       (Uint8ArrayToBase64String (Codec := sharedCodec) m) = Returned [m]).
Proof.
  split.
  - intros x m H. exists m. split.
    + apply Base64Facts.decodeMessage_encodeBytes.
    + symmetry. now apply Base64Facts.decodeMessage_iff.
  - intros m. split.
    + apply Base64Facts.decodeMessage_encodeBytes.
    + simpl. unfold decodeBase64.
      now rewrite Base64Facts.decodeMessage_encodeBytes.
Qed.

(** For transactions and queries the base64 layer is transparent:
    decoding an encoded object is the SDK reading the wire bytes of the
    object, no more and no less.  Whether that reading gives back an
    object with the same wire bytes is for the wire format of the SDK to
    say; nothing here settles it. *)
Lemma base64_layer_transparent (wire : WireFormat) :
  (forall t,
     decodeTransaction (transactionToBase64String t)
     = Transaction_fromBytes (Transaction_toBytes t))
  /\
  (forall q,
     decodeQuery (queryToBase64String q) = Query_fromBytes (Query_toBytes q)).
Proof.
  assert (D : forall m, decodeBase64 (Base64.encodeBytes m) = Returned m).
  { intros m. unfold decodeBase64.
    now rewrite Base64Facts.decodeMessage_encodeBytes. }
  split.
  - intros t. unfold decodeTransaction, transactionToBase64String. now rewrite D.
  - intros q. unfold decodeQuery, queryToBase64String. now rewrite D.
Qed.

(* ================================================================== *)
(** ** Session proposals: chains of accounts *)

Lemma append_empty (s : string) : s ++ EmptyString = s.
Proof. induction s as [|c s IH]; simpl; congruence. Qed.

Lemma append_assoc' (a b c : string) : (a ++ b) ++ c = a ++ (b ++ c).
Proof. induction a as [|x a IH]; simpl; congruence. Qed.

Lemma holds_append (sep : ascii) (a b : string) :
  holds sep (a ++ b) = holds sep a || holds sep b.
Proof.
  induction a as [|x a IH]; simpl.
  - reflexivity.
  - rewrite IH. now rewrite orb_assoc.
Qed.

Lemma splitFrom_prefix (sep : ascii) (p : string) :
  holds sep p = false ->
  forall current s,
    splitFrom sep current (p ++ s) = splitFrom sep (current ++ p) s.
Proof.
  induction p as [|c p IH]; simpl; intros H current s.
  - now rewrite append_empty.
  - apply orb_false_elim in H. destruct H as (Hc & Hp).
    rewrite Hc, (IH Hp), append_assoc'. reflexivity.
Qed.

Lemma splitOn_prefix (sep : ascii) (p s : string) :
  holds sep p = false ->
  splitOn sep (p ++ String sep s) = p :: splitOn sep s.
Proof.
  intros H. unfold splitOn. rewrite (splitFrom_prefix sep p H). simpl.
  now rewrite Ascii.eqb_refl.
Qed.

Lemma splitOn_whole (sep : ascii) (p : string) :
  holds sep p = false -> splitOn sep p = [p].
Proof.
  intros H. unfold splitOn.
  rewrite <- (append_empty p) at 1. now rewrite (splitFrom_prefix sep p H).
Qed.

Lemma splitFrom_parts (sep : ascii) (s : string) :
  forall current,
    holds sep current = false ->
    splitFrom sep current s <> [] /\
    Forall (fun p => holds sep p = false) (splitFrom sep current s).
Proof.
  induction s as [|c s IH]; simpl; intros current H.
  - split; [discriminate|]. now constructor.
  - destruct (Ascii.eqb c sep) eqn:E.
    + split; [discriminate|]. constructor; [exact H|]. now apply IH.
    + apply IH. rewrite holds_append, H. simpl. now rewrite E.
Qed.

Lemma splitOn_joinWith (sep : ascii) (parts : list string) :
  parts <> [] ->
  Forall (fun p => holds sep p = false) parts ->
  splitOn sep (joinWith (String sep EmptyString) parts) = parts.
Proof.
  induction parts as [|p rest IH]; intros N F; [congruence|].
  inversion F as [|? ? Hp Hrest]; subst.
  destruct rest as [|q rest].
  - simpl. now apply splitOn_whole.
  - change (joinWith (String sep EmptyString) (p :: q :: rest))
      with (p ++ String sep (joinWith (String sep EmptyString) (q :: rest))).
    rewrite (splitOn_prefix sep p _ Hp). f_equal.
    apply IH; [discriminate|assumption].
Qed.

(** *** Keeping first occurrences *)

Lemma indexOfFrom_spec (x : string) (pre rest : list string) :
  forall i,
    indexOfFrom i x (pre ++ x :: rest) =
    (if existsb (fun y => y =? x) pre
     then indexOfFrom i x pre
     else Z.of_nat (i + List.length pre)) /\
    (existsb (fun y => y =? x) pre = true ->
     (indexOfFrom i x pre < Z.of_nat (i + List.length pre))%Z).
Proof.
  induction pre as [|y pre IH]; intros i; simpl.
  - rewrite String.eqb_refl, Nat.add_0_r. split; [reflexivity|discriminate].
  - destruct (y =? x) eqn:E; simpl.
    + split; [reflexivity|]. intros _. lia.
    + destruct (IH (S i)) as (H1 & H2). rewrite H1.
      replace (S i + List.length pre)%nat with (i + S (List.length pre))%nat in * by lia.
      split; [reflexivity|exact H2].
Qed.

Lemma filterFrom_first (whole : list string) (rest : list string) :
  forall pre,
    whole = (pre ++ rest)%list ->
    filterFrom (List.length pre)
      (fun x i => (indexOf x whole =? Z.of_nat i)%Z) rest =
    filter (fun x => negb (existsb (fun y => y =? x) pre)) (keepFirst rest).
Proof.
  induction rest as [|x rest IH]; intros pre W; simpl.
  - reflexivity.
  - assert (whole = ((pre ++ [x]) ++ rest)%list) as W'.
    { now rewrite <- app_assoc. }
    specialize (IH (pre ++ [x])%list W').
    rewrite length_app in IH. simpl in IH.
    replace (List.length pre + 1)%nat with (S (List.length pre)) in IH by lia.
    rewrite IH.
    assert (forall l,
              filter (fun z => negb (existsb (fun y => y =? z) (pre ++ [x])))
                     l =
              filter (fun z => negb (existsb (fun y => y =? z) pre))
                     (filter (fun y => negb (y =? x)) l)) as FF.
    { intros l. induction l as [|z l IHl]; simpl; [reflexivity|].
      rewrite existsb_app. simpl. rewrite orb_false_r.
      rewrite (String.eqb_sym x z).
      destruct (z =? x); simpl.
      - rewrite orb_true_r. simpl. exact IHl.
      - rewrite orb_false_r.
        destruct (existsb (fun y => y =? z) pre); simpl; [exact IHl|].
        now rewrite IHl. }
    rewrite FF.
    unfold indexOf. rewrite W.
    destruct (indexOfFrom_spec x pre rest 0) as (H1 & H2). rewrite H1.
    destruct (existsb (fun y => y =? x) pre) eqn:E; simpl.
    + specialize (H2 eq_refl). simpl in H2.
      destruct (Z.eqb_spec (indexOfFrom 0 x pre) (Z.of_nat (List.length pre)));
        [lia|reflexivity].
    + now rewrite Z.eqb_refl.
Qed.

Lemma filterIndexed_keepFirst (l : list string) :
  filterIndexed (fun x i a => (indexOf x a =? Z.of_nat i)%Z) l = keepFirst l.
Proof.
  unfold filterIndexed.
  pose proof (filterFrom_first l l [] eq_refl) as H. simpl in H. rewrite H.
  apply forallb_filter_id. apply forallb_forall. reflexivity.
Qed.

Lemma keepFirst_In (l : list string) (x : string) :
  In x (keepFirst l) <-> In x l.
Proof.
  induction l as [|y l IH]; simpl; [tauto|].
  rewrite filter_In, IH.
  destruct (String.eqb_spec x y) as [->|N]; simpl.
  - tauto.
  - split.
    + intros [H|[H _]]; auto.
    + intros [H|H]; [auto|]. right. split; [exact H|reflexivity].
Qed.

Lemma keepFirst_NoDup (l : list string) : NoDup (keepFirst l).
Proof.
  induction l as [|y l IH]; simpl; constructor.
  - rewrite filter_In. intros (_ & H). now rewrite String.eqb_refl in H.
  - now apply NoDup_filter.
Qed.

Lemma keepFirst_length (l : list string) :
  (List.length (keepFirst l) <= List.length l)%nat.
Proof.
  induction l as [|y l IH]; simpl; [lia|].
  pose proof (filter_length_le (fun z => negb (z =? y)) (keepFirst l)). lia.
Qed.

Lemma firstn_Forall {A} (P : A -> Prop) (n : nat) (l : list A) :
  Forall P l -> Forall P (firstn n l).
Proof.
  intros H. revert n. induction H as [|x l Hx _ IH]; intros [|n]; simpl;
    constructor; auto.
Qed.

(** X1.  The chain of an account written [namespace:network:address] is
    [namespace:network], whatever the address part holds, colons
    included; and the network that [getHederaWallet] reads off that chain
    is [network]. *)
Theorem chainOf_account (namespace network address : string) :
  holds ":" namespace = false ->
  holds ":" network = false ->
  chainOf (namespace ++ ":" ++ network ++ ":" ++ address) = namespace ++ ":" ++ network /\
  networkOf (chainOf (namespace ++ ":" ++ network ++ ":" ++ address)) = Some network.
Proof.
  intros Hn Hw.
  assert (chainOf (namespace ++ ":" ++ network ++ ":" ++ address)
          = namespace ++ ":" ++ network) as E.
  { unfold chainOf.
    change (namespace ++ ":" ++ network ++ ":" ++ address)
      with (namespace ++ String ":" (network ++ String ":" address)).
    rewrite (splitOn_prefix ":" namespace _ Hn), (splitOn_prefix ":" network _ Hw).
    reflexivity. }
  split; [exact E|]. rewrite E. unfold networkOf.
  change (namespace ++ ":" ++ network) with (namespace ++ String ":" network).
  rewrite (splitOn_prefix ":" namespace _ Hn), (splitOn_whole ":" network Hw).
  reflexivity.
Qed.

Lemma chainOf_account_witness :
  chainOf "hedera:testnet:0.0.12345" = "hedera:testnet" /\
  networkOf (chainOf "hedera:testnet:0.0.12345") = Some "testnet".
Proof.
  apply (chainOf_account "hedera" "testnet" "0.0.12345"); reflexivity.
Defined.

(** X2.  An account, or a chain id, without any colon is taken whole as
    its chain, and has no network: [getHederaWallet] then hands
    [undefined] to the client factory. *)
Theorem chainOf_without_colon (s : string) :
  holds ":" s = false ->
  chainOf s = s /\ networkOf s = None.
Proof.
  intros H. unfold chainOf, networkOf. rewrite (splitOn_whole ":" s H).
  split; reflexivity.
Qed.

Lemma chainOf_without_colon_witness :
  chainOf "testnet" = "testnet" /\ networkOf "testnet" = None.
Proof. apply (chainOf_without_colon "testnet"). reflexivity. Defined.

(** X3.  Taking the chain of a chain changes nothing: [chainOf] is
    idempotent on every text. *)
Theorem chainOf_idempotent (account : string) :
  chainOf (chainOf account) = chainOf account.
Proof.
  unfold chainOf.
  destruct (splitFrom_parts ":" account EmptyString eq_refl) as (N & F).
  fold (splitOn ":" account) in N, F.
  assert (firstn 2 (splitOn ":" account) <> []) as N2.
  { destruct (splitOn ":" account); [congruence|discriminate]. }
  assert (Forall (fun p => holds ":" p = false) (firstn 2 (splitOn ":" account))) as F2.
  { now apply firstn_Forall. }
  rewrite (splitOn_joinWith ":" _ N2 F2).
  now rewrite firstn_firstn.
Qed.

(** X4.  The chains computed for a session proposal are the chains of the
    accounts with repetitions dropped, each chain standing where it comes
    first: the chain of the first account leads, and it is removed from
    what the other accounts contribute. *)
Theorem uniqueChains_first_occurrences (account : string) (accounts : list string) :
  uniqueChains [] = [] /\
  uniqueChains (account :: accounts) =
    chainOf account ::
    filter (fun chain => negb (chain =? chainOf account)) (uniqueChains accounts).
Proof.
  unfold uniqueChains. rewrite !filterIndexed_keepFirst.
  split; reflexivity.
Qed.

(** X5.  No chain is listed twice, a chain is listed exactly when it is
    the chain of one of the accounts, and there are at most as many
    chains as accounts. *)
Theorem uniqueChains_sound_complete (accounts : list string) :
  NoDup (uniqueChains accounts) /\
  (forall chain,
     In chain (uniqueChains accounts) <->
     exists account, In account accounts /\ chainOf account = chain) /\
  (List.length (uniqueChains accounts) <= List.length accounts)%nat.
Proof.
  unfold uniqueChains. rewrite filterIndexed_keepFirst.
  split; [apply keepFirst_NoDup|]. split.
  - intros chain. rewrite keepFirst_In, in_map_iff.
    split; intros (a & H1 & H2); exists a; auto.
  - rewrite <- (length_map chainOf accounts). apply keepFirst_length.
Qed.

(* ================================================================== *)
(** ** The parser, on the whole *)

Section ParserWhole.
Context {sdk : Sdk} {codec : Codec}.

Ltac switch_atom :=
  match goal with
  | |- context [isString ?v] => destruct (isString v) eqn:?
  | |- context [isArray ?v] => destruct (isArray v) eqn:?
  | |- context [firstBadElement ?f ?i ?l] => destruct (firstBadElement f i l) eqn:?
  | |- context [AccountId_fromString ?s] => destruct (AccountId_fromString s) eqn:?
  | |- context [decodeTransactions ?s] => destruct (decodeTransactions s) eqn:?
  | |- context [base64StringToMessage ?s] => destruct (base64StringToMessage s) eqn:?
  | |- context [base64StringToQuery ?s] => destruct (base64StringToQuery s) eqn:?
  | |- context [truthy ?s] => destruct (truthy s) eqn:?
  end.

Ltac unfold_switch :=
  cbv [switchMethod bbind eval throw bret setBody setSignerAccountId
       HederaJsonRpcMethod.GetNodeAddresses
       HederaJsonRpcMethod.ExecuteTransaction HederaJsonRpcMethod.SignMessage
       HederaJsonRpcMethod.SignQueryAndSend
       HederaJsonRpcMethod.SignAndExecuteTransaction
       HederaJsonRpcMethod.SignTransaction];
  simpl String.eqb; cbv iota;
  repeat rewrite validateParam_string;
  repeat rewrite validateParam_array;
  repeat rewrite validateElements_firstBad.

Lemma parse_refines_schema (event : SessionRequest) :
  parseSessionRequest event true = schemaDrivenParse event.
Proof.
  destruct event as [id topic [[method params] chainId]].
  unfold parseSessionRequest, schemaDrivenParse, routingOnly. simpl.
  destruct (method_known_or_not method) as [K|U].
  - simpl in K.
    destruct K as [<-|[<-|[<-|[<-|[<-|[<-|[]]]]]]];
      cbv [schemaFor expectedAccount expectedBody declaresSigner existsb
           firstViolation fieldViolation fst snd];
      simpl String.eqb; cbv iota; simpl orb; unfold_switch;
      repeat (switch_atom; simpl; try reflexivity).
  - rewrite switchMethod_unknown, schemaFor_unknown by assumption. reflexivity.
Qed.

Lemma mapThrowing_Forall2 {A B} (f : A -> Outcome B) (l : list A) :
  forall rs, mapThrowing f l = Returned rs -> Forall2 (fun a r => f a = Returned r) l rs.
Proof.
  induction l as [|a l IH]; simpl; intros rs.
  - intros [= <-]. constructor.
  - destruct (f a) as [b|e] eqn:E; simpl; [|discriminate].
    destruct (mapThrowing f l) as [bs|e]; simpl; [|discriminate].
    intros [= <-]. constructor; auto.
Qed.

Lemma schemaDriven_typed (event : SessionRequest) (d : Descriptor) :
  schemaDrivenParse event = Returned d ->
  In (d_method d) HederaJsonRpcMethod.values /\
  bodyFits (d_method d) (d_body d) = true /\
  (isNone (d_accountId d) =
   (d_method d =? "hedera_getNodeAddresses") || (d_method d =? "hedera_executeTransaction")).
Proof.
  destruct event as [id topic [[method params] chainId]].
  unfold schemaDrivenParse, routingOnly. simpl.
  destruct (method_known_or_not method) as [K|U].
  - simpl in K.
    destruct K as [<-|[<-|[<-|[<-|[<-|[<-|[]]]]]]];
      cbv [schemaFor expectedAccount expectedBody declaresSigner existsb
           firstViolation fieldViolation fst snd];
      simpl String.eqb; cbv iota; simpl orb;
      repeat (switch_atom; simpl; try discriminate);
      intros [= <-]; simpl; (split; [tauto|split; reflexivity]).
  - rewrite schemaFor_unknown by assumption. discriminate.
Qed.

End ParserWhole.

Lemma parse_routing (sdk : Sdk) (codec : Codec) (event : SessionRequest)
  (shouldThrow : bool) (d : Descriptor) :
  parseSessionRequest event shouldThrow = Returned d ->
  d_method d = rq_method (rp_request (ev_params event)) /\
  d_chainId d = rp_chainId (ev_params event) /\
  d_id d = ev_id event /\
  d_topic d = ev_topic event.
Proof.
  unfold parseSessionRequest.
  destruct (switchMethod _ _ _) as [[u|e] l]; [|destruct shouldThrow; [discriminate|]];
    intros [= <-]; simpl; auto.
Qed.

Lemma parse_same_when_strict_returns (sdk : Sdk) (codec : Codec)
  (event : SessionRequest) (d : Descriptor) :
  parseSessionRequest event true = Returned d ->
  parseSessionRequest event false = Returned d.
Proof.
  unfold parseSessionRequest.
  destruct (switchMethod _ _ _) as [[u|e] l]; [auto|discriminate].
Qed.

(** X6.  The [switch] of the strict parser computes what the schema table
    prescribes, for every request: an unknown method is refused first;
    then parameters where none are declared; then the first violation of
    the schema in field order; then a signer account that does not parse;
    then a payload that does not decode; otherwise the descriptor is
    returned. *)
Theorem strict_parse_schema_driven (sdk : Sdk) (codec : Codec) (event : SessionRequest) :
  parseSessionRequest event true = schemaDrivenParse event.
Proof. apply parse_refines_schema. Qed.

(** X7.  A descriptor returned by the strict parser is well formed: it
    carries the id, topic, method and chainId of the request; its method
    is one of the six; its body has the shape the handler of that method
    reads; its account is absent exactly for [hedera_getNodeAddresses]
    and [hedera_executeTransaction]; and the lenient parser returns the
    same descriptor. *)
Theorem strict_parse_descriptor_typed (sdk : Sdk) (codec : Codec)
  (event : SessionRequest) (d : Descriptor) :
  parseSessionRequest event true = Returned d ->
  d_method d = rq_method (rp_request (ev_params event)) /\
  d_chainId d = rp_chainId (ev_params event) /\
  d_id d = ev_id event /\
  d_topic d = ev_topic event /\
  In (d_method d) HederaJsonRpcMethod.values /\
  bodyFits (d_method d) (d_body d) = true /\
  isNone (d_accountId d) =
    (d_method d =? "hedera_getNodeAddresses") || (d_method d =? "hedera_executeTransaction") /\
  parseSessionRequest event false = Returned d.
Proof.
  intros H.
  destruct (parse_routing _ _ _ _ _ H) as (R1 & R2 & R3 & R4).
  pose proof (parse_same_when_strict_returns _ _ _ _ H) as L.
  rewrite parse_refines_schema in H.
  destruct (schemaDriven_typed _ _ H) as (T1 & T2 & T3).
  repeat (split; [assumption|]). assumption.
Qed.

Lemma strict_parse_descriptor_typed_witness :
  let d :=
    {| d_method := "hedera_signTransaction";
       d_chainId := "hedera:testnet";
       d_id := 1717;
       d_topic := "topic-abc";
       d_body := Some (BodyTransactions
                         [mkTransaction None None [x01; x02; x03];
                          mkTransaction None None [x0a; x0b]]);
       d_accountId := Some Fixtures.operator |} in
  bodyFits (d_method d) (d_body d) = true /\
  @parseSessionRequest Fixtures.sdk Fixtures.codec
    (Fixtures.event "hedera_signTransaction"
       (JsObject [("signerAccountId", JsString "0.0.12345");
                  ("transaction", JsArray [JsString "AQID"; JsString "Cgs="])])) false
  = Returned d.
Proof.
  intros d.
  assert (@parseSessionRequest Fixtures.sdk Fixtures.codec
            (Fixtures.event "hedera_signTransaction"
               (JsObject [("signerAccountId", JsString "0.0.12345");
                          ("transaction", JsArray [JsString "AQID"; JsString "Cgs="])]))
            true = Returned d) as H.
  { vm_compute. reflexivity. }
  destruct (strict_parse_descriptor_typed Fixtures.sdk Fixtures.codec _ _ H)
    as (_ & _ & _ & _ & _ & T & _ & L).
  split; [exact T|exact L].
Defined.

Lemma parsed_batch_follows_array (sdk : Sdk) (codec : Codec)
  (event : SessionRequest) (d : Descriptor) (transactions : list Transaction) :
  let method := rq_method (rp_request (ev_params event)) in
  let params := rq_params (rp_request (ev_params event)) in
  let array :=
    getOpt params (if method =? "hedera_executeTransaction"
                   then "signedTransaction" else "transaction") in
  parseSessionRequest event true = Returned d ->
  d_body d = Some (BodyTransactions transactions) ->
  Forall2 (fun v t => exists s, v = JsString s /\
                                base64StringToTransaction s = Returned t)
          (elementsOf array) transactions /\
  List.length transactions = List.length (elementsOf array).
Proof.
  intros method params array H B.
  assert (Forall2 (fun v t => exists s, v = JsString s /\
                                base64StringToTransaction s = Returned t)
                  (elementsOf array) transactions) as F.
  { rewrite parse_refines_schema in H. revert H B.
    subst method params array.
    destruct event as [id topic [[method params] chainId]].
    unfold schemaDrivenParse, routingOnly. simpl.
    destruct (method_known_or_not method) as [K|U].
    - simpl in K.
      assert (forall array txs,
                firstBadElement "x" 0 (elementsOf array) = None ->
                decodeTransactions array = Returned txs ->
                Forall2 (fun v t => exists s, v = JsString s /\
                                      base64StringToTransaction s = Returned t)
                        (elementsOf array) txs) as core.
      { intros array txs Hb Hd. apply firstBadElement_none in Hb.
        apply mapThrowing_Forall2 in Hd. rewrite forallb_forall in Hb.
        clear - Hb Hd. induction Hd as [|v t l ts Hv _ IH]; constructor.
        - destruct v; try (specialize (Hb _ (or_introl eq_refl)); discriminate Hb).
          eexists. split; [reflexivity|exact Hv].
        - apply IH. intros x Hx. apply Hb. now right. }
      assert (forall f g i l, firstBadElement f i l = None -> firstBadElement g i l = None)
        as rename.
      { intros f g i l. rewrite !firstBadElement_none. auto. }
      destruct K as [<-|[<-|[<-|[<-|[<-|[<-|[]]]]]]];
        cbv [schemaFor expectedAccount expectedBody declaresSigner existsb
             firstViolation fieldViolation fst snd];
        simpl String.eqb; cbv iota; simpl orb;
        repeat (match goal with
                | |- context [isString ?v] => destruct (isString v) eqn:?
                | |- context [isArray ?v] => destruct (isArray v) eqn:?
                | |- context [firstBadElement ?f ?i ?l] =>
                    destruct (firstBadElement f i l) eqn:?
                | |- context [AccountId_fromString ?s] =>
                    destruct (AccountId_fromString s) eqn:?
                | |- context [decodeTransactions ?s] =>
                    destruct (decodeTransactions s) eqn:?
                | |- context [base64StringToMessage ?s] =>
                    destruct (base64StringToMessage s) eqn:?
                | |- context [base64StringToQuery ?s] =>
                    destruct (base64StringToQuery s) eqn:?
                | |- context [truthy ?s] => destruct (truthy s) eqn:?
                end; simpl; try discriminate);
        intros [= <-]; simpl; try discriminate;
        intros [= <-]; eapply core; eauto.
    - rewrite schemaFor_unknown by assumption. discriminate. }
  split; [exact F|]. symmetry. eapply Forall2_length; eauto.
Qed.


(** X8.  When the strict parser returns a batch of transactions, the
    batch follows the array of the request element by element: as many
    transactions as strings, the i-th transaction being the decoding of
    the i-th string.  The array is [signedTransaction] for
    [hedera_executeTransaction] and [transaction] for the two signing
    methods. *)
Theorem decoded_transactions_in_order (sdk : Sdk) (codec : Codec)
  (event : SessionRequest) (d : Descriptor) (transactions : list Transaction) :
  let method := rq_method (rp_request (ev_params event)) in
  let params := rq_params (rp_request (ev_params event)) in
  let array :=
    getOpt params (if method =? "hedera_executeTransaction"
                   then "signedTransaction" else "transaction") in
  parseSessionRequest event true = Returned d ->
  d_body d = Some (BodyTransactions transactions) ->
  Forall2 (fun v t => exists s, v = JsString s /\
                                base64StringToTransaction s = Returned t)
          (elementsOf array) transactions /\
  List.length transactions = List.length (elementsOf array).
Proof. apply parsed_batch_follows_array. Qed.

Lemma decoded_transactions_in_order_witness :
  Forall2 (fun v t => exists s, v = JsString s /\
                                @base64StringToTransaction Fixtures.codec s = Returned t)
          [JsString "AQID"; JsString "Cgs="]
          [mkTransaction None None [x01; x02; x03];
           mkTransaction None None [x0a; x0b]].
Proof.
  assert (@parseSessionRequest Fixtures.sdk Fixtures.codec
            (Fixtures.event "hedera_signTransaction"
               (JsObject [("signerAccountId", JsString "0.0.12345");
                          ("transaction", JsArray [JsString "AQID"; JsString "Cgs="])]))
            true
          = Returned
              {| d_method := "hedera_signTransaction";
                 d_chainId := "hedera:testnet";
                 d_id := 1717;
                 d_topic := "topic-abc";
                 d_body := Some (BodyTransactions
                                   [mkTransaction None None [x01; x02; x03];
                                    mkTransaction None None [x0a; x0b]]);
                 d_accountId := Some Fixtures.operator |}) as H.
  { vm_compute. reflexivity. }
  exact (proj1 (decoded_transactions_in_order Fixtures.sdk Fixtures.codec _ _ _ H eq_refl)).
Defined.

(** X9.  The strict parser reads the parameters through the declared
    fields only: two requests with the same method, one that declares
    parameters, whose parameter values agree on every declared field,
    are parsed alike, whatever else the parameters hold. *)
Theorem parse_reads_declared_fields_only (sdk : Sdk) (codec : Codec)
  (id : Z) (topic chainId method : string) (params params' : JsValue)
  (schema : list (string * Shape)) :
  schemaFor method = Some schema ->
  schema <> [] ->
  (forall field, In field schema ->
                 getOpt params (fst field) = getOpt params' (fst field)) ->
  parseSessionRequest
    {| ev_id := id; ev_topic := topic;
       ev_params := {| rp_request := {| rq_method := method; rq_params := params |};
                       rp_chainId := chainId |} |} true
  = parseSessionRequest
      {| ev_id := id; ev_topic := topic;
         ev_params := {| rp_request := {| rq_method := method; rq_params := params' |};
                         rp_chainId := chainId |} |} true.
Proof.
  intros Hs Hn Hf. rewrite !parse_refines_schema.
  unfold schemaDrivenParse. simpl. rewrite Hs.
  pose proof (schemaFor_known _ _ Hs) as K. simpl in K.
  destruct K as [<-|[<-|[<-|[<-|[<-|[<-|[]]]]]]];
    simpl in Hs; injection Hs as <-; try congruence;
    repeat match goal with
           | H : forall field, In field (?f :: ?rest) -> _ |- _ =>
               let E := fresh "E" in
               pose proof (H f (or_introl eq_refl)) as E; simpl in E;
               assert (forall field, In field rest ->
                         getOpt params (fst field) = getOpt params' (fst field))
                 by (intros g Hg; apply H; right; exact Hg);
               clear H
           end;
    cbv [expectedAccount expectedBody declaresSigner existsb
         firstViolation fieldViolation fst snd];
    simpl String.eqb; cbv iota; simpl orb;
    repeat match goal with
           | E : getOpt params _ = getOpt params' _ |- _ => rewrite E; clear E
           end;
    reflexivity.
Qed.

Lemma parse_reads_declared_fields_only_witness :
  @parseSessionRequest Fixtures.sdk Fixtures.codec
    (Fixtures.event "hedera_signMessage"
       (JsObject [("signerAccountId", JsString "0.0.12345");
                  ("message", JsString "aGVsbG8=")])) true
  = @parseSessionRequest Fixtures.sdk Fixtures.codec
      (Fixtures.event "hedera_signMessage"
         (JsObject [("memo", JsNumber 7);
                    ("message", JsString "aGVsbG8=");
                    ("signerAccountId", JsString "0.0.12345");
                    ("transaction", JsNull)])) true.
Proof.
  apply (parse_reads_declared_fields_only Fixtures.sdk Fixtures.codec
           1717 "topic-abc" "hedera:testnet" "hedera_signMessage" _ _
           [("signerAccountId", ShapeString); ("message", ShapeString)]).
  - reflexivity.
  - discriminate.
  - intros field [<-|[<-|[]]]; reflexivity.
Defined.

(* ================================================================== *)
(** ** The handlers, beyond the batch that gets through *)

Section HandlersWhole.
Context {sdk : Sdk} {codec : Codec} {transport : Transport}.

Lemma signings_app (t t' : list Effect) :
  signings (t ++ t') = (signings t ++ signings t')%list.
Proof. unfold signings. now rewrite flat_map_app. Qed.

Lemma signings_signed (l : list Transaction) :
  signings (map SignerSignTransaction l) = l.
Proof. induction l; simpl; congruence. Qed.

Lemma abind_effects {A B} (m : Async A) (k : A -> Async B) :
  fst (abind m k) =
  (fst m ++ match snd m with
            | Returned a => fst (k a)
            | Thrown _ => []
            end)%list.
Proof.
  destruct m as [t [a|e]]; simpl.
  - now destruct (k a).
  - now rewrite app_nil_r.
Qed.

Lemma answersOnce_respond (id : Z) (topic : string) (result : ResultPayload) :
  answersOnce id topic (respondSessionRequest (resultResponse id topic result)).
Proof. right. exists result. split; reflexivity. Qed.

Lemma answersOnce_bind {A} (id : Z) (topic : string) (m : Async A)
  (k : A -> Async unit) :
  responses (fst m) = [] ->
  (forall a, answersOnce id topic (k a)) ->
  answersOnce id topic (abind m k).
Proof.
  intros Q K. destruct m as [t [a|e]]; simpl in *.
  - specialize (K a). destruct (k a) as [t' o]. unfold answersOnce in *. simpl in *.
    rewrite responses_app, Q. simpl. exact K.
  - left. split; [exact Q|]. now exists e.
Qed.

Lemma sign_all_no_response (signer : HederaWallet) (l : list Transaction) :
  responses (fst (Promise_all (map (signOne signer) l))) = [].
Proof. rewrite sign_all_effects. apply (sign_all_quiet signer l). Qed.

Lemma getNodeAddresses_answers_once (id : Z) (topic : string) (signer : HederaWallet) :
  answersOnce id topic (hedera_getNodeAddresses id topic signer).
Proof.
  unfold hedera_getNodeAddresses. apply answersOnce_bind; [reflexivity|].
  intros a. apply answersOnce_respond.
Qed.

Lemma executeTransaction_answers_once (id : Z) (topic : string)
  (body : list Transaction) (signer : HederaWallet) :
  answersOnce id topic (hedera_executeTransaction id topic body signer).
Proof.
  unfold hedera_executeTransaction.
  apply answersOnce_bind; [apply submit_all_no_response|].
  intros a. apply answersOnce_respond.
Qed.

Lemma signMessage_answers_once (id : Z) (topic : string)
  (body : list bytes) (signer : HederaWallet) :
  answersOnce id topic (hedera_signMessage id topic body signer).
Proof.
  unfold hedera_signMessage.
  apply answersOnce_bind; [reflexivity|]. intros s.
  apply answersOnce_bind; [reflexivity|]. intros _.
  apply answersOnce_bind; [reflexivity|]. intros f.
  apply answersOnce_respond.
Qed.

Lemma signQueryAndSend_answers_once (id : Z) (topic : string)
  (body : Query) (signer : HederaWallet) :
  answersOnce id topic (hedera_signQueryAndSend id topic body signer).
Proof.
  unfold hedera_signQueryAndSend.
  apply answersOnce_bind; [reflexivity|]. intros r. apply answersOnce_respond.
Qed.

Lemma signAndExecuteTransaction_answers_once (id : Z) (topic : string)
  (body : list Transaction) (signer : HederaWallet) :
  answersOnce id topic (hedera_signAndExecuteTransaction id topic body signer).
Proof.
  unfold hedera_signAndExecuteTransaction.
  apply answersOnce_bind; [apply sign_all_no_response|]. intros signed.
  apply answersOnce_bind; [apply submit_all_no_response|]. intros r.
  apply answersOnce_respond.
Qed.

Lemma signTransaction_answers_once (id : Z) (topic : string)
  (body : list Transaction) (signer : HederaWallet) :
  answersOnce id topic (hedera_signTransaction id topic body signer).
Proof.
  unfold hedera_signTransaction.
  apply answersOnce_bind; [apply sign_all_no_response|]. intros signed.
  apply answersOnce_bind; [reflexivity|]. intros r.
  apply answersOnce_respond.
Qed.

Lemma submit_one_submissions (signer : HederaWallet) (t : Transaction) :
  submissions (fst (submitTransaction signer t)) = if submittable t then [t] else [].
Proof.
  unfold submittable, identified, submitTransaction, transactionIdString,
    firstNodeIdString.
  destruct (transactionId t) as [i|]; simpl; [|reflexivity].
  destruct (nodeAccountIds t) as [[|n ns]|]; simpl; try reflexivity.
  destruct (getTransactionHash t) as [h|e]; simpl; [|reflexivity].
  destruct (call signer t) as [[]|err]; reflexivity.
Qed.

Lemma submit_all_submissions (signer : HederaWallet) (l : list Transaction) :
  submissions (fst (Promise_all (map (submitTransaction signer) l)))
  = filter submittable l.
Proof.
  rewrite Promise_all_effects.
  induction l as [|t l IH]; simpl; [reflexivity|].
  rewrite submissions_app, submit_one_submissions, IH.
  now destruct (submittable t).
Qed.

Lemma submit_one_unsubmittable (signer : HederaWallet) (t : Transaction) :
  submittable t = false -> exists e, snd (submitTransaction signer t) = Thrown e.
Proof.
  unfold submittable, identified, submitTransaction, transactionIdString,
    firstNodeIdString.
  destruct (transactionId t) as [i|]; simpl; [|eauto].
  destruct (nodeAccountIds t) as [[|n ns]|]; simpl; eauto.
  destruct (getTransactionHash t) as [h|e]; simpl; [discriminate|eauto].
Qed.

Lemma signTransaction_quiet (id : Z) (topic : string)
  (body : list Transaction) (signer : HederaWallet) :
  submissions (fst (hedera_signTransaction id topic body signer)) = [] /\
  signings (fst (hedera_signTransaction id topic body signer)) = body.
Proof.
  unfold hedera_signTransaction.
  rewrite abind_effects, sign_all_effects, submissions_app, signings_app,
    signings_signed, (proj2 (sign_all_quiet signer body)).
  destruct (snd (Promise_all (map (signOne signer) body))) as [signed|e];
    [|split; [reflexivity|apply app_nil_r]].
  destruct (mapThrowing _ signed); simpl; split;
    reflexivity || apply app_nil_r.
Qed.

End HandlersWhole.

(** X10.  Each of the six handlers either throws without having sent a
    response, or sends exactly one response, a result addressed to the id
    and topic it was called with, and then settles as that call to the
    transport does.  No handler ever sends two responses or an error
    response. *)
Theorem handlers_answer_at_most_once (sdk : Sdk) (codec : Codec) (transport : Transport)
  (id : Z) (topic : string) (signer : HederaWallet)
  (transactions : list Transaction) (messages : list bytes) (query : Query) :
  Forall
    (fun run : Async unit =>
       (responses (fst run) = [] /\ exists e, snd run = Thrown e) \/
       (exists result,
          responses (fst run) = [resultResponse id topic result] /\
          snd run = deliver (resultResponse id topic result)))
    [hedera_getNodeAddresses id topic signer;
     hedera_executeTransaction id topic transactions signer;
     hedera_signMessage id topic messages signer;
     hedera_signQueryAndSend id topic query signer;
     hedera_signAndExecuteTransaction id topic transactions signer;
     hedera_signTransaction id topic transactions signer].
Proof.
  apply Forall_cons; [apply getNodeAddresses_answers_once|].
  apply Forall_cons; [apply executeTransaction_answers_once|].
  apply Forall_cons; [apply signMessage_answers_once|].
  apply Forall_cons; [apply signQueryAndSend_answers_once|].
  apply Forall_cons; [apply signAndExecuteTransaction_answers_once|].
  apply Forall_cons; [apply signTransaction_answers_once|].
  apply Forall_nil.
Qed.

(** X11.  [hedera_executeTransaction] hands to [signer.call] exactly the
    transactions of the batch that have their identifiers and a hash,
    each once, whatever becomes of the others.  When some transaction of the batch
    is not of those, the handler throws and sends no response, although
    the others have been submitted. *)
Theorem executeTransaction_submits_what_it_can (sdk : Sdk) (codec : Codec)
  (transport : Transport) (id : Z) (topic : string) (body : list Transaction)
  (signer : HederaWallet) :
  Permutation (submissions (fst (hedera_executeTransaction id topic body signer)))
              (filter submittable body) /\
  (Exists (fun t => submittable t = false) body ->
   (exists e, snd (hedera_executeTransaction id topic body signer) = Thrown e) /\
   responses (fst (hedera_executeTransaction id topic body signer)) = []).
Proof.
  unfold hedera_executeTransaction. split.
  - rewrite abind_effects, submissions_app, submit_all_submissions.
    destruct (snd (Promise_all _)); simpl; rewrite app_nil_r; apply Permutation_refl.
  - intros H.
    assert (exists e, snd (Promise_all (map (submitTransaction signer) body)) = Thrown e)
      as (e & He).
    { apply Promise_all_rejected. eapply Exists_impl; [|exact H].
      intros t. apply submit_one_unsubmittable. }
    split.
    + exists e. destruct (Promise_all _) as [t o]. simpl in *. now subst.
    + rewrite abind_effects, He, app_nil_r. apply submit_all_no_response.
Qed.

Lemma executeTransaction_submits_what_it_can_witness :
  Permutation
    (submissions (fst (@hedera_executeTransaction Fixtures.sdk Fixtures.codec
                         Fixtures.transport 1717 "topic-abc"
                         [Fixtures.prepared; Fixtures.withoutTransactionId;
                          Fixtures.prepared']
                         Fixtures.signer)))
    [Fixtures.prepared; Fixtures.prepared'] /\
  responses (fst (@hedera_executeTransaction Fixtures.sdk Fixtures.codec
                    Fixtures.transport 1717 "topic-abc"
                    [Fixtures.prepared; Fixtures.withoutTransactionId; Fixtures.prepared']
                    Fixtures.signer))
  = [].
Proof.
  destruct (executeTransaction_submits_what_it_can Fixtures.sdk Fixtures.codec
              Fixtures.transport 1717 "topic-abc"
              [Fixtures.prepared; Fixtures.withoutTransactionId; Fixtures.prepared']
              Fixtures.signer) as (S & F).
  split.
  - exact S.
  - apply F. right. left. reflexivity.
Defined.

(** X12.  When the signer fails to sign some transaction of the batch,
    [hedera_signAndExecuteTransaction] throws after having handed every
    transaction of the batch to the signer for signing: nothing is
    submitted, not even the transactions that were signed, and no
    response is sent. *)
Theorem signing_failure_submits_nothing (sdk : Sdk) (codec : Codec)
  (transport : Transport) (id : Z) (topic : string) (body : list Transaction)
  (signer : HederaWallet) :
  Exists (fun t => exists e, signTransaction signer t = Thrown e) body ->
  exists e,
    hedera_signAndExecuteTransaction id topic body signer
    = (map SignerSignTransaction body, Thrown e) /\
    submissions (map SignerSignTransaction body) = [] /\
    responses (map SignerSignTransaction body) = [].
Proof.
  intros H. destruct (sign_all_fail signer body H) as (e & E).
  exists e. unfold hedera_signAndExecuteTransaction. rewrite E. simpl.
  split; [reflexivity|]. split; apply (sign_all_quiet signer body).
Qed.

Lemma signing_failure_submits_nothing_witness :
  exists e,
    @hedera_signAndExecuteTransaction Fixtures.sdk Fixtures.codec Fixtures.transport
      1717 "topic-abc" [Fixtures.prepared; Fixtures.prepared'] Doubles.pickySigner
    = ([SignerSignTransaction Fixtures.prepared; SignerSignTransaction Fixtures.prepared'],
       Thrown e).
Proof.
  destruct (signing_failure_submits_nothing Fixtures.sdk Fixtures.codec Fixtures.transport
              1717 "topic-abc" [Fixtures.prepared; Fixtures.prepared'] Doubles.pickySigner)
    as (e & E & _).
  - right. left. eexists. reflexivity.
  - exists e. exact E.
Defined.

(** X13.  The two signing handlers hand every transaction of the batch to
    [signer.signTransaction], once and in batch order, whether or not the
    signing of some of them fails and whatever happens afterwards. *)
Theorem every_transaction_is_handed_to_the_signer (sdk : Sdk) (codec : Codec)
  (transport : Transport) (id : Z) (topic : string) (body : list Transaction)
  (signer : HederaWallet) :
  signings (fst (hedera_signTransaction id topic body signer)) = body /\
  signings (fst (hedera_signAndExecuteTransaction id topic body signer)) = body.
Proof.
  split; [apply signTransaction_quiet|].
  unfold hedera_signAndExecuteTransaction.
  rewrite abind_effects, sign_all_effects, signings_app, signings_signed.
  destruct (snd (Promise_all (map (signOne signer) body))) as [signed|e];
    [|apply app_nil_r].
  rewrite abind_effects, signings_app, Promise_all_effects.
  assert (signings (flat_map (fun a => fst (submitTransaction signer a)) signed) = [])
    as ->.
  { induction signed as [|t l IH]; simpl; [reflexivity|].
    rewrite signings_app, IH, app_nil_r.
    unfold submitTransaction.
    destruct (transactionIdString t); simpl; [|reflexivity].
    destruct (firstNodeIdString t); simpl; [|reflexivity].
    destruct (getTransactionHash t); simpl; [|reflexivity].
    destruct (call signer t) as [[]|err]; reflexivity. }
  destruct (snd (Promise_all _)); simpl; apply app_nil_r.
Qed.

(** X14.  [hedera_signMessage] leaves the request unanswered when the
    signer throws, and also when the signer answers no signature at all:
    reading the first entry then throws a [TypeError], after the empty
    answer was logged.  [hedera_signQueryAndSend] leaves the request
    unanswered when the query fails.  In each case the signer was called
    once. *)
Theorem signer_failure_leaves_request_unanswered (codec : Codec) (transport : Transport)
  (id : Z) (topic : string) (messages : list bytes) (query : Query)
  (signer : HederaWallet) :
  (forall e, sign signer messages = Thrown e ->
             hedera_signMessage id topic messages signer
             = ([SignerSign messages], Thrown e)) /\
  (sign signer messages = Returned [] ->
   exists msg,
     hedera_signMessage id topic messages signer
     = ([SignerSign messages; ConsoleLogSignatures []], Thrown (TypeError msg))) /\
  (forall e, executeQuery signer query = Thrown e ->
             hedera_signQueryAndSend id topic query signer
             = ([QueryExecuteWithSigner query], Thrown e)).
Proof.
  unfold hedera_signMessage, hedera_signQueryAndSend.
  split; [|split].
  - intros e ->. reflexivity.
  - intros ->. eexists. reflexivity.
  - intros e ->. reflexivity.
Qed.

Lemma signer_failure_leaves_request_unanswered_witness :
  (exists msg,
     @hedera_signMessage Fixtures.codec Fixtures.transport
       1717 "topic-abc" [[x01]] Doubles.pickySigner
     = ([SignerSign [[x01]]; ConsoleLogSignatures []], Thrown (TypeError msg))) /\
  @hedera_signQueryAndSend Fixtures.codec Fixtures.transport
    1717 "topic-abc" (mkQuery [x01]) Doubles.pickySigner
  = ([QueryExecuteWithSigner (mkQuery [x01])],
     Thrown (Error "INSUFFICIENT_PAYER_BALANCE")).
Proof.
  destruct (signer_failure_leaves_request_unanswered Fixtures.codec Fixtures.transport
              1717 "topic-abc" [[x01]] (mkQuery [x01]) Doubles.pickySigner)
    as (_ & B & C).
  split.
  - apply B. reflexivity.
  - apply C. reflexivity.
Defined.

(* ================================================================== *)
(** ** The dispatcher *)

Section DispatcherFacts.
Context {sdk : Sdk} {codec : Codec} {transport : Transport}.

Lemma abind_settle_returned {A B} (a : A) (k : A -> Async B) :
  abind (settle (Returned a)) k = k a.
Proof. unfold abind, settle. now destruct (k a). Qed.

Lemma execute_after_parse (others : OtherMembers) (event : SessionRequest)
  (signer : HederaWallet) :
  executeSessionRequest event signer =
  match parseSessionRequest event true with
  | Returned d => dispatch (d_method d) (d_id d) (d_topic d) (d_body d) signer
  | Thrown e => ([], Thrown e)
  end.
Proof.
  unfold executeSessionRequest.
  destruct (parseSessionRequest event true) as [d|e].
  - exact (abind_settle_returned d
             (fun d => dispatch (d_method d) (d_id d) (d_topic d) (d_body d) signer)).
  - reflexivity.
Qed.

Ltac known_method K :=
  simpl in K; destruct K as [<-|[<-|[<-|[<-|[<-|[<-|[]]]]]]].

Lemma dispatch_typed (o1 o2 : OtherMembers) (method : string) (id : Z)
  (topic : string) (body : option Body) (signer : HederaWallet) :
  In method HederaJsonRpcMethod.values ->
  bodyFits method body = true ->
  @dispatch sdk codec transport o1 method id topic body signer
  = @dispatch sdk codec transport o2 method id topic body signer.
Proof.
  intros K F. known_method K;
    destruct body as [[l|q|m]|]; simpl in F; try discriminate F; reflexivity.
Qed.

Lemma dispatch_answers_once (others : OtherMembers) (method : string) (id : Z)
  (topic : string) (body : option Body) (signer : HederaWallet) :
  In method HederaJsonRpcMethod.values ->
  bodyFits method body = true ->
  answersOnce id topic (dispatch method id topic body signer).
Proof.
  intros K F. known_method K;
    destruct body as [[l|q|m]|]; simpl in F; try discriminate F;
    cbv [dispatch HederaJsonRpcMethod.GetNodeAddresses
         HederaJsonRpcMethod.ExecuteTransaction HederaJsonRpcMethod.SignMessage
         HederaJsonRpcMethod.SignQueryAndSend
         HederaJsonRpcMethod.SignAndExecuteTransaction
         HederaJsonRpcMethod.SignTransaction];
    simpl String.eqb; cbv iota.
  - apply getNodeAddresses_answers_once.
  - apply executeTransaction_answers_once.
  - apply signMessage_answers_once.
  - apply signQueryAndSend_answers_once.
  - apply signAndExecuteTransaction_answers_once.
  - apply signTransaction_answers_once.
Qed.

Lemma signMessage_never_submits (id : Z) (topic : string) (body : list bytes)
  (signer : HederaWallet) :
  submissions (fst (hedera_signMessage id topic body signer)) = [].
Proof.
  unfold hedera_signMessage, perform, settle, abind.
  destruct (sign signer body) as [[|s l]|e]; reflexivity.
Qed.

Lemma signQueryAndSend_never_submits (id : Z) (topic : string) (body : Query)
  (signer : HederaWallet) :
  submissions (fst (hedera_signQueryAndSend id topic body signer)) = [].
Proof.
  unfold hedera_signQueryAndSend, perform, abind.
  destruct (executeQuery signer body); reflexivity.
Qed.

Lemma dispatch_submissions (others : OtherMembers) (method : string) (id : Z)
  (topic : string) (body : option Body) (signer : HederaWallet) :
  In method HederaJsonRpcMethod.values ->
  bodyFits method body = true ->
  method <> HederaJsonRpcMethod.ExecuteTransaction ->
  method <> HederaJsonRpcMethod.SignAndExecuteTransaction ->
  submissions (fst (dispatch method id topic body signer)) = [].
Proof.
  intros K F N1 N2. known_method K; try congruence;
    destruct body as [[l|q|m]|]; simpl in F; try discriminate F;
    cbv [dispatch HederaJsonRpcMethod.GetNodeAddresses
         HederaJsonRpcMethod.ExecuteTransaction HederaJsonRpcMethod.SignMessage
         HederaJsonRpcMethod.SignQueryAndSend
         HederaJsonRpcMethod.SignAndExecuteTransaction
         HederaJsonRpcMethod.SignTransaction];
    simpl String.eqb; cbv iota.
  - reflexivity.
  - apply signMessage_never_submits.
  - apply signQueryAndSend_never_submits.
  - apply signTransaction_quiet.
Qed.

End DispatcherFacts.

(** X15.  After a successful strict parse the dispatcher calls one of the
    six handlers, with a body of the shape that handler reads: what
    another member of the wallet, or a handler given a body of another
    shape, would do has no bearing on [executeSessionRequest], for any
    request. *)
Theorem dispatch_stays_within_handlers (sdk : Sdk) (codec : Codec)
  (transport : Transport) (others others' : OtherMembers)
  (event : SessionRequest) (signer : HederaWallet) :
  @executeSessionRequest sdk codec transport others event signer
  = @executeSessionRequest sdk codec transport others' event signer.
Proof.
  rewrite !execute_after_parse.
  destruct (parseSessionRequest event true) as [d|e] eqn:P; [|reflexivity].
  rewrite parse_refines_schema in P.
  destruct (schemaDriven_typed _ _ P) as (K & F & _).
  now apply dispatch_typed.
Qed.

(** X16.  A request that the strict parser refuses is dropped before
    anything happens: [executeSessionRequest] throws the parser's error
    having called neither the signer, nor the console, nor the transport.
    So it is for a method that is not one of the six and for a request
    that violates the schema of its method. *)
Theorem refused_request_touches_nothing (sdk : Sdk) (codec : Codec)
  (transport : Transport) (others : OtherMembers)
  (event : SessionRequest) (signer : HederaWallet) :
  let method := rq_method (rp_request (ev_params event)) in
  let params := rq_params (rp_request (ev_params event)) in
  (forall e, parseSessionRequest event true = Thrown e ->
             executeSessionRequest event signer = ([], Thrown e)) /\
  (~ In method HederaJsonRpcMethod.values ->
   executeSessionRequest event signer = ([], Thrown InvalidMethodError)) /\
  (forall schema viol,
     schemaFor method = Some schema ->
     firstViolation params schema = Some viol ->
     executeSessionRequest event signer = ([], Thrown (InvalidParamsError viol))).
Proof.
  intros method params.
  assert (forall e, parseSessionRequest event true = Thrown e ->
                    executeSessionRequest event signer = ([], Thrown e)) as A.
  { intros e P. rewrite execute_after_parse, P. reflexivity. }
  split; [exact A|]. split.
  - intros U. apply A. unfold parseSessionRequest. fold method. fold params.
    now rewrite switchMethod_unknown.
  - intros schema viol Hs Hv. apply A.
    unfold parseSessionRequest. fold method. fold params.
    now rewrite (switchMethod_violation _ _ _ _ _ Hs Hv).
Qed.

Lemma refused_request_touches_nothing_witness :
  @executeSessionRequest Fixtures.sdk Fixtures.codec Fixtures.transport Doubles.others'
    (Fixtures.event "rejectSessionRequest" JsNull) Fixtures.signer
  = ([], Thrown InvalidMethodError) /\
  @executeSessionRequest Fixtures.sdk Fixtures.codec Fixtures.transport Doubles.others'
    (Fixtures.event "hedera_signMessage"
       (JsObject [("signerAccountId", JsNumber 12345)])) Fixtures.signer
  = ([], Thrown (InvalidParamsError
                   {| offender := "signerAccountId"; expected := "string";
                      actual := "number" |})).
Proof.
  split.
  - apply (refused_request_touches_nothing Fixtures.sdk Fixtures.codec
             Fixtures.transport Doubles.others'
             (Fixtures.event "rejectSessionRequest" JsNull) Fixtures.signer).
    simpl. intros [H|[H|[H|[H|[H|[H|[]]]]]]]; discriminate H.
  - apply (refused_request_touches_nothing Fixtures.sdk Fixtures.codec
             Fixtures.transport Doubles.others'
             (Fixtures.event "hedera_signMessage"
                (JsObject [("signerAccountId", JsNumber 12345)])) Fixtures.signer)
      with (schema := [("signerAccountId", ShapeString); ("message", ShapeString)]);
      reflexivity.
Defined.

(** X17.  Whatever the request and the signer, [executeSessionRequest]
    sends at most one response.  Either it throws with no response sent,
    or it sends exactly one, a result carrying the id and topic of the
    request, and settles as that call to the transport does; in
    particular a request whose execution returns was answered once. *)
Theorem executeSessionRequest_answers_at_most_once (sdk : Sdk) (codec : Codec)
  (transport : Transport) (others : OtherMembers)
  (event : SessionRequest) (signer : HederaWallet) :
  let run := executeSessionRequest event signer in
  (responses (fst run) = [] /\ exists e, snd run = Thrown e) \/
  (exists result,
     responses (fst run) = [resultResponse (ev_id event) (ev_topic event) result] /\
     snd run = deliver (resultResponse (ev_id event) (ev_topic event) result)).
Proof.
  cbv zeta. rewrite execute_after_parse.
  destruct (parseSessionRequest event true) as [d|e] eqn:P.
  - destruct (parse_routing _ _ _ _ _ P) as (_ & _ & <- & <-).
    rewrite parse_refines_schema in P.
    destruct (schemaDriven_typed _ _ P) as (K & F & _).
    exact (dispatch_answers_once others _ _ _ _ signer K F).
  - left. split; [reflexivity|]. now exists e.
Qed.

Section SignerCallFacts.
Context {sdk : Sdk} {codec : Codec} {transport : Transport}.

Lemma queryCalls_app (t t' : list Effect) :
  queryCalls (t ++ t') = (queryCalls t ++ queryCalls t')%list.
Proof. unfold queryCalls. now rewrite flat_map_app. Qed.

Lemma queryCalls_signed (l : list Transaction) :
  queryCalls (map SignerSignTransaction l) = [].
Proof. induction l; simpl; auto. Qed.

Lemma submit_all_no_query (signer : HederaWallet) (l : list Transaction) :
  queryCalls (fst (Promise_all (map (submitTransaction signer) l))) = [].
Proof.
  rewrite Promise_all_effects.
  induction l as [|t l IH]; simpl; [reflexivity|].
  rewrite queryCalls_app, IH, app_nil_r.
  unfold submitTransaction.
  destruct (transactionIdString t); simpl; [|reflexivity].
  destruct (firstNodeIdString t); simpl; [|reflexivity].
  destruct (getTransactionHash t); simpl; [|reflexivity].
  destruct (call signer t) as [[]|err]; reflexivity.
Qed.

Lemma executeTransaction_no_query (id : Z) (topic : string)
  (body : list Transaction) (signer : HederaWallet) :
  queryCalls (fst (hedera_executeTransaction id topic body signer)) = [].
Proof.
  unfold hedera_executeTransaction.
  rewrite abind_effects, queryCalls_app, submit_all_no_query.
  destruct (snd (Promise_all _)); reflexivity.
Qed.

Lemma signAndExecuteTransaction_no_query (id : Z) (topic : string)
  (body : list Transaction) (signer : HederaWallet) :
  queryCalls (fst (hedera_signAndExecuteTransaction id topic body signer)) = [].
Proof.
  unfold hedera_signAndExecuteTransaction.
  rewrite abind_effects, sign_all_effects, queryCalls_app, queryCalls_signed.
  destruct (snd (Promise_all (map (signOne signer) body))) as [signed|e];
    [|reflexivity].
  rewrite abind_effects, queryCalls_app, submit_all_no_query.
  destruct (snd (Promise_all _)); reflexivity.
Qed.

Lemma signTransaction_no_query (id : Z) (topic : string)
  (body : list Transaction) (signer : HederaWallet) :
  queryCalls (fst (hedera_signTransaction id topic body signer)) = [].
Proof.
  unfold hedera_signTransaction.
  rewrite abind_effects, sign_all_effects, queryCalls_app, queryCalls_signed.
  destruct (snd (Promise_all (map (signOne signer) body))) as [signed|e];
    [|reflexivity].
  destruct (mapThrowing _ signed); reflexivity.
Qed.

Lemma signMessage_no_query (id : Z) (topic : string) (body : list bytes)
  (signer : HederaWallet) :
  queryCalls (fst (hedera_signMessage id topic body signer)) = [].
Proof.
  unfold hedera_signMessage, perform, settle, abind.
  destruct (sign signer body) as [[|s l]|e]; reflexivity.
Qed.

Lemma dispatch_queryCalls (others : OtherMembers) (method : string) (id : Z)
  (topic : string) (body : option Body) (signer : HederaWallet) :
  In method HederaJsonRpcMethod.values ->
  bodyFits method body = true ->
  method <> HederaJsonRpcMethod.SignQueryAndSend ->
  queryCalls (fst (dispatch method id topic body signer)) = [].
Proof.
  intros K F N. simpl in K.
  destruct K as [<-|[<-|[<-|[<-|[<-|[<-|[]]]]]]]; try congruence;
    destruct body as [[l|q|m]|]; simpl in F; try discriminate F;
    cbv [dispatch HederaJsonRpcMethod.GetNodeAddresses
         HederaJsonRpcMethod.ExecuteTransaction HederaJsonRpcMethod.SignMessage
         HederaJsonRpcMethod.SignQueryAndSend
         HederaJsonRpcMethod.SignAndExecuteTransaction
         HederaJsonRpcMethod.SignTransaction];
    simpl String.eqb; cbv iota.
  - reflexivity.
  - apply executeTransaction_no_query.
  - apply signMessage_no_query.
  - apply signAndExecuteTransaction_no_query.
  - apply signTransaction_no_query.
Qed.

End SignerCallFacts.

(** X18.  [signer.call] is reached by three methods only.  A transaction
    is handed to it by [hedera_executeTransaction] and
    [hedera_signAndExecuteTransaction] alone, and a query, through
    [query.executeWithSigner(signer)], by [hedera_signQueryAndSend]
    alone: for a request of any other method, well formed or not,
    [executeSessionRequest] hands it neither. *)
Theorem who_reaches_signer_call (sdk : Sdk) (codec : Codec)
  (transport : Transport) (others : OtherMembers)
  (event : SessionRequest) (signer : HederaWallet) :
  let method := rq_method (rp_request (ev_params event)) in
  let run := executeSessionRequest event signer in
  (method <> "hedera_executeTransaction" ->
   method <> "hedera_signAndExecuteTransaction" ->
   submissions (fst run) = []) /\
  (method <> "hedera_signQueryAndSend" ->
   queryCalls (fst run) = []).
Proof.
  intros method run. subst run. rewrite execute_after_parse.
  destruct (parseSessionRequest event true) as [d|e] eqn:P;
    [|split; reflexivity].
  destruct (parse_routing _ _ _ _ _ P) as (M & _).
  rewrite parse_refines_schema in P.
  destruct (schemaDriven_typed _ _ P) as (K & F & _).
  split.
  - intros N1 N2.
    apply dispatch_submissions; try assumption; rewrite M; assumption.
  - intros N.
    apply dispatch_queryCalls; try assumption; rewrite M; assumption.
Qed.

Lemma who_reaches_signer_call_witness :
  let run :=
    @executeSessionRequest Fixtures.sdk Fixtures.codec Fixtures.transport
      Doubles.others
      (Fixtures.event "hedera_signTransaction"
         (JsObject [("signerAccountId", JsString "0.0.12345");
                    ("transaction", JsArray [JsString "AQID"])]))
      Fixtures.signer in
  submissions (fst run) = [] /\ queryCalls (fst run) = [].
Proof.
  intros run.
  destruct (who_reaches_signer_call Fixtures.sdk Fixtures.codec Fixtures.transport
              Doubles.others
              (Fixtures.event "hedera_signTransaction"
                 (JsObject [("signerAccountId", JsString "0.0.12345");
                            ("transaction", JsArray [JsString "AQID"])]))
              Fixtures.signer) as (A & B).
  split.
  - apply A; discriminate.
  - apply B; discriminate.
Defined.

(* ================================================================== *)
(** ** The request builders against the parser *)

(** X19.  A request made by [buildSignAndExecuteTransactionRequest] or by
    [buildSignAndReturnTransactionRequest] is refused by the strict
    parser of the wallet, whatever the signer account and the
    transaction: the builders put the transaction under [transaction] as
    an object with a [bytes] field, where the parser wants an array of
    strings. *)
Theorem transaction_builders_refused (sdk : Sdk) (codec : Codec)
  (encoders : DappEncoders) (self : HederaSessionRequest)
  (id : Z) (signerAccountId : string) (transaction : Transaction) :
  let arriving (r : EngineRequest) :=
    {| ev_id := id; ev_topic := er_topic r;
       ev_params := {| rp_request := er_request r; rp_chainId := er_chainId r |} |} in
  let refusal :=
    HederaError "INVALID_PARAMS"
      (Some "Invalid paramameter value for transaction, expected array but got object") in
  parseSessionRequest
    (arriving (buildSignAndExecuteTransactionRequest self signerAccountId transaction))
    true = Thrown refusal /\
  parseSessionRequest
    (arriving (buildSignAndReturnTransactionRequest self signerAccountId transaction))
    true = Thrown refusal.
Proof. split; reflexivity. Qed.

(** X20.  A request made by [buildSignMessageRequest] is refused by the
    strict parser of the wallet, whatever the signer account and the
    messages: the builder puts an array under [messages], and the parser
    finds no [message]. *)
Theorem message_builder_refused (sdk : Sdk) (codec : Codec)
  (encoders : DappEncoders) (self : HederaSessionRequest)
  (id : Z) (signerAccountId : string) (messages : list Message) :
  let r := buildSignMessageRequest self signerAccountId messages in
  parseSessionRequest
    {| ev_id := id; ev_topic := er_topic r;
       ev_params := {| rp_request := er_request r; rp_chainId := er_chainId r |} |}
    true
  = Thrown (HederaError "INVALID_PARAMS"
      (Some "Invalid paramameter value for message, expected string but got undefined")).
Proof. reflexivity. Qed.

(* ================================================================== *)
(** ** From the request to the response *)

Lemma Forall2_compose {A B C} (R : A -> B -> Prop) (S : B -> C -> Prop)
  (la : list A) (lb : list B) :
  Forall2 R la lb ->
  forall lc, Forall2 S lb lc ->
             Forall2 (fun a c => exists b, R a b /\ S b c) la lc.
Proof.
  induction 1 as [|a b la lb Hab _ IH]; intros lc H; inversion H; subst.
  - constructor.
  - constructor; eauto.
Qed.

(** X21.  The lenient parser never throws: for every request it returns a
    descriptor with the id, topic, method and chainId of the request,
    and the rejection path can always address its response. *)
Theorem lenient_parse_never_throws (sdk : Sdk) (codec : Codec) (event : SessionRequest) :
  exists d,
    parseSessionRequest event false = Returned d /\
    d_id d = ev_id event /\
    d_topic d = ev_topic event /\
    d_method d = rq_method (rp_request (ev_params event)) /\
    d_chainId d = rp_chainId (ev_params event).
Proof. apply parse_lenient_returns. Qed.

(** X22.  A [hedera_executeTransaction] request that parses, and whose
    transactions all have their identifiers and a hash, is answered with
    one response whose result array follows the [signedTransaction]
    array of the request: as many records as strings, the i-th record
    made from the decoding of the i-th string. *)
Theorem executeTransaction_request_to_response (sdk : Sdk) (codec : Codec)
  (transport : Transport) (others : OtherMembers)
  (event : SessionRequest) (signer : HederaWallet)
  (d : Descriptor) (transactions : list Transaction) :
  let params := rq_params (rp_request (ev_params event)) in
  let array := elementsOf (getOpt params "signedTransaction") in
  rq_method (rp_request (ev_params event)) = "hedera_executeTransaction" ->
  parseSessionRequest event true = Returned d ->
  d_body d = Some (BodyTransactions transactions) ->
  Forall ready transactions ->
  exists results,
    responses (fst (executeSessionRequest event signer))
    = [resultResponse (ev_id event) (ev_topic event) (TransactionResults results)] /\
    snd (executeSessionRequest event signer)
    = deliver (resultResponse (ev_id event) (ev_topic event) (TransactionResults results)) /\
    List.length results = List.length array /\
    Forall2 (fun v r => exists t, (exists s, v = JsString s /\
                                     base64StringToTransaction s = Returned t) /\
                                  recordFor signer t r)
            array results.
Proof.
  intros params array M P B R.
  destruct (parse_routing _ _ _ _ _ P) as (Dm & _ & Di & Dt).
  pose proof (parsed_batch_follows_array sdk codec event d transactions P B) as (F & _).
  cbv zeta in F. rewrite M in F. simpl in F. fold params in F. fold array in F.
  destruct (submit_all_ready signer transactions R) as (results & E & Rec).
  exists results.
  rewrite execute_after_parse, P, Dm, M, Di, Dt, B.
  cbv [dispatch HederaJsonRpcMethod.GetNodeAddresses
       HederaJsonRpcMethod.ExecuteTransaction]. simpl String.eqb. cbv iota.
  unfold hedera_executeTransaction. rewrite E. simpl.
  rewrite responses_app, (proj1 (submitEffects_quiet signer transactions)). simpl.
  split; [reflexivity|]. split; [reflexivity|]. split.
  - rewrite <- (Forall2_length Rec). symmetry. exact (Forall2_length F).
  - exact (Forall2_compose _ _ _ _ F _ Rec).
Qed.

Lemma executeTransaction_request_to_response_witness :
  exists results,
    responses
      (fst (@executeSessionRequest Fixtures.sdk Doubles.codec Fixtures.transport
              Doubles.others
              (Fixtures.event "hedera_executeTransaction"
                 (JsObject [("signedTransaction",
                             JsArray [JsString "AQID"; JsString "Cgs="])]))
              Fixtures.signer))
    = [resultResponse 1717 "topic-abc" (TransactionResults results)] /\
    List.length results = 2%nat.
Proof.
  set (ev := Fixtures.event "hedera_executeTransaction"
               (JsObject [("signedTransaction",
                           JsArray [JsString "AQID"; JsString "Cgs="])])).
  set (txs := [mkTransaction (Some (mkTransactionId Fixtures.operator 1700000000))
                 (Some [Fixtures.node3]) [x01; x02; x03];
               mkTransaction (Some (mkTransactionId Fixtures.operator 1700000000))
                 (Some [Fixtures.node3]) [x0a; x0b]]).
  set (d := {| d_method := "hedera_executeTransaction";
               d_chainId := "hedera:testnet";
               d_id := 1717;
               d_topic := "topic-abc";
               d_body := Some (BodyTransactions txs);
               d_accountId := None |}).
  assert (@parseSessionRequest Fixtures.sdk Doubles.codec ev true = Returned d) as P.
  { vm_compute. reflexivity. }
  assert (Forall (@ready Fixtures.sdk) txs) as R.
  { repeat constructor; eexists; reflexivity. }
  destruct (executeTransaction_request_to_response Fixtures.sdk Doubles.codec
              Fixtures.transport Doubles.others ev Fixtures.signer d txs
              eq_refl P eq_refl R) as (results & A & _ & L & _).
  exists results. split; [exact A|exact L].
Defined.
